(** * Satellite state model of gnss_lib_py: a shallow embedding

    The development follows [gnss_lib_py/utils/sv_models.py] function by
    function.  NumPy's double precision numbers are idealised as real
    numbers ([R]); a NumPy array holding one entry per satellite is a list
    with one entry per satellite, and an operation that NumPy evaluates
    element-wise is mapped over that list, with NumPy's stretching of an
    operand of one entry.  A table ([NavData]) is the list of its columns;
    indexing it removes every dimension of length one, so that a row of a
    one-column table is a single number and three rows of it are a flat
    array of three numbers.  Python exceptions are the [Raise] outcomes of
    an error monad. *)

From Stdlib Require Import String.
From Stdlib Require Import Reals Lra Lia List ZArith Bool.
From Stdlib Require Import Machin.
From Stdlib Require Import Ascii.
From Stdlib Require DecimalString DecimalNat.
Import ListNotations.
Open Scope R_scope.

(** ** Exceptions and results *)

Inductive exn : Type :=
| AssertionError (msg : string)
| TypeError
| ValueError
| IndexError
| AttributeError
| RuntimeWarning
| RuntimeError
| UnboundLocalError
| LinAlgError.

Inductive result (A : Type) : Type :=
| Return (a : A)
| Raise (e : exn).

Arguments Return {A} a.
Arguments Raise {A} e.

Definition bind {A B : Type} (m : result A) (k : A -> result B) : result B :=
  match m with
  | Return a => k a
  | Raise e => Raise e
  end.

Notation "x <- m ;; k" := (bind m (fun x => k))
  (at level 61, m at next level, right associativity).
Notation "' p <- m ;; k" := (bind m (fun x => let p := x in k))
  (at level 61, p pattern, m at next level, right associativity).

Definition raises {A : Type} (m : result A) : Prop :=
  exists e, m = Raise e.

Fixpoint mapM {A B : Type} (f : A -> result B) (l : list A) : result (list B) :=
  match l with
  | [] => Return []
  | a :: l' => b <- f a ;; bs <- mapM f l' ;; Return (b :: bs)
  end.

(** Comparison of two reals as NumPy's [>] returns it. *)
Definition Rgtb (x y : R) : bool :=
  if Rlt_dec y x then true else false.

(** ** Collaborators that are not part of this module *)

(** [gnss_lib_py.utils.constants]: the physical constants the module reads. *)
Class Constants : Type := {
  MU_EARTH : R;
  OMEGA_E_DOT : R;
  C : R;
  T_TRANS : R
}.

(** [gps_millis_to_tow] of [time_conversions] and [ecef_to_el_az] of
    [coordinates].  The latter returns the elevation row and the azimuth
    row, in degrees, of every satellite position seen from the receiver. *)
Class Collaborators : Type := {
  gps_millis_to_tow : R -> Z * R;
  ecef_to_el_az : list R -> list (R * R * R) -> list R * list R
}.

(** ** Ephemeris parameters and satellite states *)

(** One column of the ephemeris table: the broadcast parameters of one
    satellite, named as the rows of the table are. *)
Module Eph.
Record t : Type := mk {
  sv_id : Z;
  gps_week : Z;
  t_oe : R;
  sqrtA : R;
  e : R;
  M_0 : R;
  omega : R;
  Omega_0 : R;
  OmegaDot : R;
  deltaN : R;
  i_0 : R;
  IDOT : R;
  C_is : R;
  C_ic : R;
  C_rs : R;
  C_rc : R;
  C_uc : R;
  C_us : R
}.
End Eph.

(** One column of the table [find_sv_states] builds. *)
Module Sv.
Record t : Type := mk {
  sv_id : Z;
  times : R;
  x_sv_m : R;
  y_sv_m : R;
  z_sv_m : R;
  vx_sv_mps : R;
  vy_sv_mps : R;
  vz_sv_mps : R
}.
End Sv.

(** A NumPy value that is either a single number, broadcast over the
    satellites, or an array with one entry per satellite.  The query time
    is a single number in [find_sv_states]'s documentation and an array on
    the second propagation of [_find_sv_location]. *)
Inductive ndarray (A : Type) : Type :=
| Scalar (a : A)
| Vector (l : list A).

Arguments Scalar {A} a.
Arguments Vector {A} l.

Definition nd_map {A B : Type} (f : A -> B) (t : ndarray A) : ndarray B :=
  match t with
  | Scalar x => Scalar (f x)
  | Vector xs => Vector (map f xs)
  end.

(** The entries of a value, and an operand of one entry stretched to [n]
    entries. *)
Definition entries {A : Type} (t : ndarray A) : list A :=
  match t with
  | Scalar x => [x]
  | Vector xs => xs
  end.

Definition stretch {A : Type} (n : nat) (xs : list A) : list A :=
  match xs with
  | [x] => repeat x n
  | _ => xs
  end.

(** Storing a value in a row of a table of [n] columns, and operating it
    against the rows of a table of [n] columns when [n] is not one: a
    number or a vector of one entry is stretched over the columns, a
    vector of [n] entries is taken as it is, and NumPy refuses any other
    length with a [ValueError]. *)
Definition broadcast {A : Type} (n : nat) (t : ndarray A) : result (list A) :=
  match t with
  | Scalar x => Return (repeat x n)
  | Vector xs =>
      if Nat.eqb (length xs) 1 then Return (stretch n xs)
      else if Nat.eqb (length xs) n then Return xs
      else Raise ValueError
  end.

(** NumPy's broadcasting of two operands of at most one dimension, of [m]
    and [n] entries: an operand of one entry is stretched, other lengths
    have to agree. *)
Definition common_length (m n : nat) : result nat :=
  if Nat.eqb m 1 then Return n
  else if Nat.eqb n 1 then Return m
  else if Nat.eqb m n then Return n
  else Raise ValueError.

(** An element-wise operation on two such operands, given by their
    entries. *)
Definition elementwise {A B C : Type} (f : A -> B -> C) (xs : list A) (ys : list B)
  : result (list C) :=
  n <- common_length (length xs) (length ys) ;;
  Return (map (fun '(x, y) => f x y) (combine (stretch n xs) (stretch n ys))).

(** Three rows of a table as [NavData] hands them out: a 3xN array given
    by its columns, or, for a table of one column, the flat array of the
    three numbers of that column. *)
Inductive xyz_array : Type :=
| Flat (p : R * R * R)
| Columns (cols : list (R * R * R)).

Definition squeeze (cols : list (R * R * R)) : xyz_array :=
  match cols with
  | [p] => Flat p
  | _ => Columns cols
  end.

(** [np.arange(0, hi)] and [range(hi)]. *)
Definition arange (lo hi : nat) : list nat := seq lo (hi - lo).
Definition range (hi : nat) : list nat := seq 0 hi.

(** [np.arctan2] on real numbers: the angle of the point [(x, y)] in
    [(-PI, PI]]. *)
Definition arctan2 (y x : R) : R :=
  if Rlt_dec 0 x then atan (y / x)
  else if Rlt_dec x 0 then
    (if Rle_dec 0 y then atan (y / x) + PI else atan (y / x) - PI)
  else if Rlt_dec 0 y then PI / 2
  else if Rlt_dec y 0 then - (PI / 2)
  else 0.

(** [np.deg2rad]. *)
Definition deg2rad (x : R) : R := x * (PI / 180).

(** [np.reshape(rx_ecef, [3, 1])]: the three entries, or a [ValueError]. *)
Definition reshape_3_1 (rx_ecef : list R) : result (R * R * R) :=
  match rx_ecef with
  | [x; y; z] => Return (x, y, z)
  | _ => Raise ValueError
  end.

(** [np.nonzero] of a boolean row: the indices that hold [True]. *)
Fixpoint nonzero_from (i : nat) (keep : list bool) : list nat :=
  match keep with
  | [] => []
  | b :: keep' => if b then i :: nonzero_from (S i) keep' else nonzero_from (S i) keep'
  end.

Definition nonzero (keep : list bool) : list nat := nonzero_from 0 keep.

(** [NavData.copy(cols=...)]: the listed columns, in that order. *)
Definition copy_cols {A : Type} (table : list A) (cols : list nat) : result (list A) :=
  mapM (fun i => match nth_error table i with
                 | Some c => Return c
                 | None => Raise IndexError
                 end) cols.

(** ** The object store

    [_find_sv_location] assigns rows of the table it was handed, so tables
    of satellite states live in a store and are passed by reference. *)
Definition ref : Type := nat.
Definition heap : Type := list (list Sv.t).

Definition deref (h : heap) (r : ref) : result (list Sv.t) :=
  match nth_error h r with
  | Some t => Return t
  | None => Raise TypeError
  end.

Fixpoint store (h : heap) (r : ref) (t : list Sv.t) : heap :=
  match h, r with
  | [], _ => []
  | _ :: h', O => t :: h'
  | t0 :: h', S r' => t0 :: store h' r' t
  end.

Definition alloc (h : heap) (t : list Sv.t) : ref * heap :=
  (length h, h ++ [t]).

Section SvModels.
Context {K : Constants} {X : Collaborators}.

(** *** [svs_from_el_az] (lines 17-42)

    The argument is a two-dimensional array, given by its rows. *)
Definition svs_from_el_az (elaz_deg : list (list R)) : result (list (list R)) :=
  match elaz_deg with
  | [row_el; row_az] =>
      let el_deg := map deg2rad row_el in
      let az_deg := map deg2rad row_az in
      let unit_vect_0 := map (fun '(az, el) => sin az * cos el) (combine az_deg el_deg) in
      let unit_vect_1 := map (fun '(az, el) => cos az * cos el) (combine az_deg el_deg) in
      let unit_vect_2 := map sin el_deg in
      Return (map (map (Rmult 20200000)) [unit_vect_0; unit_vect_1; unit_vect_2])
  | _ => Raise (AssertionError "elaz_deg should be a 2xN array")
  end.

(** *** [_compute_eccentric_anomaly] (lines 372-427) *)

(** Lines 408-409: elapsed time since the ephemeris reference, with the
    week rollover term. *)
Definition gpsweek_diff (gps_week : Z) (eph : Eph.t) : R :=
  IZR (gps_week mod 1024 - Eph.gps_week eph mod 1024) * 604800.

Definition delta_t (gps_week : Z) (gps_tow : R) (eph : Eph.t) : R :=
  gps_tow - Eph.t_oe eph + gpsweek_diff gps_week eph.

(** Line 405 (and 110): [np.sqrt(MU_EARTH) * sqrt_sma**-3]. *)
Definition sqrt_mu_a (eph : Eph.t) : R :=
  sqrt MU_EARTH * / (Eph.sqrtA eph ^ 3).

(** Lines 412-413. *)
Definition mean_anom (gps_week : Z) (gps_tow : R) (eph : Eph.t) : R :=
  let mean_anom_corr := Eph.deltaN eph * delta_t gps_week gps_tow eph in
  Eph.M_0 eph + (sqrt_mu_a eph * delta_t gps_week gps_tow eph) + mean_anom_corr.

(** Lines 418-421 for one satellite: the new iterate and the correction
    that led to it. *)
Definition newton_update (mean_anom ecc ecc_anom : R) : R * R :=
  let fun_ := mean_anom - ecc_anom + ecc * sin ecc_anom in
  let df_decc_anom := ecc * cos ecc_anom - 1 in
  let delta_ecc_anom := - fun_ / df_decc_anom in
  (ecc_anom + delta_ecc_anom, delta_ecc_anom).

(** The loop state: the array [ecc_anom] and the array [delta_ecc_anom],
    which is unbound until the body has run once. *)
Definition newton_state : Type := (list R * option (list R))%type.

(** The body of the loop at line 417, over all satellites; [cols] holds
    the mean anomaly and the eccentricity of each satellite. *)
Definition newton_body (cols : list (R * R)) (st : newton_state) (_ : nat)
  : newton_state :=
  let r := map (fun '(m, ecc, ecc_anom) => newton_update m ecc ecc_anom)
               (combine cols (fst st)) in
  (map fst r, Some (map snd r)).

Definition newton_loop (cols : list (R * R)) (max_iter : nat) : newton_state :=
  fold_left (newton_body cols) (arange 0 max_iter) (map fst cols, None).

Definition kepler_cols (gps_week : list Z) (gps_tow : list R) (ephem : list Eph.t)
  : list (R * R) :=
  map (fun '(week, tow, eph) => (mean_anom week tow eph, Eph.e eph))
      (combine (combine gps_week gps_tow) ephem).

(** Lines 408-409 broadcast the query week and the query time of week
    against the rows of the ephemeris: the weeks, the times of week and
    the ephemeris columns that go together, entry by entry. *)
Definition solver_operands (gps_week : ndarray Z) (gps_tow : ndarray R)
    (ephem : list Eph.t) : result (list Z * list R * list Eph.t) :=
  with_weeks <- common_length (length (entries gps_week)) (length ephem) ;;
  with_tows <- common_length (length (entries gps_tow)) (length ephem) ;;
  n <- common_length with_tows with_weeks ;;
  Return (stretch n (entries gps_week), stretch n (entries gps_tow), stretch n ephem).

Definition _compute_eccentric_anomaly (gps_week : ndarray Z) (gps_tow : ndarray R)
    (ephem : list Eph.t) (tol : R) (max_iter : nat) : result (list R) :=
  '(weeks, tows, ephem) <- solver_operands gps_week gps_tow ephem ;;
  let '(ecc_anom, delta) := newton_loop (kepler_cols weeks tows ephem) max_iter in
  match delta with
  | None => Raise UnboundLocalError
  | Some delta_ecc_anom =>
      if existsb (fun d => Rgtb d tol) delta_ecc_anom
      then Raise RuntimeWarning
      else Return ecc_anom
  end.

(** The defaults of the signature at line 372. *)
Definition default_tol : R := 1 / 100000.
Definition default_max_iter : nat := 10.

(** *** [find_sv_states] (lines 45-224) *)

(** Lines 135-142: the true anomaly from the eccentric anomaly. *)
Definition true_anomaly (ecc ecc_anom : R) : R :=
  let cos_e := cos ecc_anom in
  let sin_e := sin ecc_anom in
  let e_cos_e := 1 - ecc * cos_e in
  let sin_nu := sqrt (1 - ecc ^ 2) * (sin_e / e_cos_e) in
  let cos_nu := (cos_e - ecc) / e_cos_e in
  arctan2 sin_nu cos_nu.

(** Lines 147-151: the state of the loop is [phi] and the pair
    [cos_to_phi], [sin_to_phi], unbound before the first pass. *)
Definition phi_state : Type := (R * option (R * R))%type.

Definition phi_body (phi_0 c_uc c_us : R) (st : phi_state) (_ : nat) : phi_state :=
  let phi := fst st in
  let cos_to_phi := cos (2 * phi) in
  let sin_to_phi := sin (2 * phi) in
  let phi_corr := c_uc * cos_to_phi + c_us * sin_to_phi in
  (phi_0 + phi_corr, Some (cos_to_phi, sin_to_phi)).

Definition phi_loop (phi_0 c_uc c_us : R) : phi_state :=
  fold_left (phi_body phi_0 c_uc c_us) (range 5) (phi_0, None).

(** Lines 154 and 161: the longitude of the ascending node. *)
Definition node_longitude (gps_week : Z) (gps_tow : R) (eph : Eph.t) : R :=
  let omega_corr := Eph.OmegaDot eph * delta_t gps_week gps_tow eph in
  Eph.Omega_0 eph - (OMEGA_E_DOT * (gps_tow + gpsweek_diff gps_week eph)) + omega_corr.

(** Lines 96-222 for one satellite, given its eccentric anomaly. *)
Definition sv_state (gps_week : Z) (gps_tow : R) (eph : Eph.t) (ecc_anom : R)
  : result Sv.t :=
  let c_is := Eph.C_is eph in
  let c_ic := Eph.C_ic eph in
  let c_rs := Eph.C_rs eph in
  let c_rc := Eph.C_rc eph in
  let c_uc := Eph.C_uc eph in
  let c_us := Eph.C_us eph in
  let delta_n := Eph.deltaN eph in
  let ecc := Eph.e eph in
  let omega := Eph.omega eph in
  let sqrt_sma := Eph.sqrtA eph in
  let sma := sqrt_sma ^ 2 in
  let delta_t := delta_t gps_week gps_tow eph in
  let cos_e := cos ecc_anom in
  let sin_e := sin ecc_anom in
  let e_cos_e := 1 - ecc * cos_e in
  let nu_rad := true_anomaly ecc ecc_anom in
  let phi_0 := nu_rad + omega in
  match phi_loop phi_0 c_uc c_us with
  | (_, None) => Raise UnboundLocalError
  | (phi, Some (cos_to_phi, sin_to_phi)) =>
      let omega := node_longitude gps_week gps_tow eph in
      let r_corr := c_rc * cos_to_phi + c_rs * sin_to_phi in
      let orb_radius := sma * e_cos_e + r_corr in
      let delta_e := (sqrt_mu_a eph + delta_n) / e_cos_e in
      let dphi := sqrt (1 - ecc ^ 2) * delta_e / e_cos_e in
      let delta_r := (sma * ecc * delta_e * sin_e)
                     + 2 * (c_rs * cos_to_phi - c_rc * sin_to_phi) * dphi in
      let i_corr := c_ic * cos_to_phi + c_is * sin_to_phi + Eph.IDOT eph * delta_t in
      let incl := Eph.i_0 eph + i_corr in
      let delta_i := 2 * (c_is * cos_to_phi - c_ic * sin_to_phi) * dphi + Eph.IDOT eph in
      let x_plane := orb_radius * cos phi in
      let y_plane := orb_radius * sin phi in
      let delta_u := (1 + 2 * (c_us * cos_to_phi - c_uc * sin_to_phi)) * dphi in
      let dxp := delta_r * cos phi - orb_radius * sin phi * delta_u in
      let dyp := delta_r * sin phi + orb_radius * cos phi * delta_u in
      let cos_omega := cos omega in
      let sin_omega := sin omega in
      let cos_i := cos incl in
      let sin_i := sin incl in
      let omega_dot := Eph.OmegaDot eph - OMEGA_E_DOT in
      Return {|
        Sv.sv_id := Eph.sv_id eph;
        Sv.times := gps_tow;
        Sv.x_sv_m := x_plane * cos_omega - y_plane * cos_i * sin_omega;
        Sv.y_sv_m := x_plane * sin_omega + y_plane * cos_i * cos_omega;
        Sv.z_sv_m := y_plane * sin_i;
        Sv.vx_sv_mps := dxp * cos_omega
                        - dyp * cos_i * sin_omega
                        + y_plane * sin_omega * sin_i * delta_i
                        - (x_plane * sin_omega + y_plane * cos_i * cos_omega) * omega_dot;
        Sv.vy_sv_mps := dxp * sin_omega
                        + dyp * cos_i * cos_omega
                        - y_plane * sin_i * cos_omega * delta_i
                        + (x_plane * cos_omega - (y_plane * cos_i * sin_omega)) * omega_dot;
        Sv.vz_sv_mps := dyp * sin_i + y_plane * cos_i * delta_i
      |}
  end.

(** The whole function.  [ephem] is [None] when the caller passed Python's
    [None]; subscripting it at line 96 is a [TypeError].  Line 111 operates
    the query weeks against the rows of the ephemeris and line 124 stores
    the query times of week in a row of the new table, which has one
    column per ephemeris column. *)
Definition find_sv_states (gps_millis : ndarray R) (ephem : option (list Eph.t))
  : result (list Sv.t) :=
  let gps_week := nd_map (fun t => fst (gps_millis_to_tow t)) gps_millis in
  let gps_tow := nd_map (fun t => snd (gps_millis_to_tow t)) gps_millis in
  match ephem with
  | None => Raise TypeError
  | Some ephem =>
      weeks <- broadcast (length ephem) gps_week ;;
      tows <- broadcast (length ephem) gps_tow ;;
      ecc_anom <- _compute_eccentric_anomaly gps_week gps_tow ephem
                    default_tol default_max_iter ;;
      mapM (fun '(week, tow, eph, ecc_anom) => sv_state week tow eph ecc_anom)
           (combine (combine (combine weeks tows) ephem) ecc_anom)
  end.

(** *** [_extract_pos_vel_arr] (lines 227-247)

    The position rows and the velocity rows, as the indexing of the table
    returns them; the first dimension is 3 in either shape, so both
    assertions hold for every table of satellite states. *)
Definition positions (sv_posvel : list Sv.t) : list (R * R * R) :=
  map (fun s => (Sv.x_sv_m s, Sv.y_sv_m s, Sv.z_sv_m s)) sv_posvel.

Definition velocities (sv_posvel : list Sv.t) : list (R * R * R) :=
  map (fun s => (Sv.vx_sv_mps s, Sv.vy_sv_mps s, Sv.vz_sv_mps s)) sv_posvel.

Definition _extract_pos_vel_arr (sv_posvel : list Sv.t) : xyz_array * xyz_array :=
  (squeeze (positions sv_posvel), squeeze (velocities sv_posvel)).

(** The call of [ecef_to_el_az] on such an array.  The function lifts the
    satellite positions to two dimensions and refuses an array whose first
    dimension is not 3 with [RuntimeError]: a flat array of three numbers
    becomes 1x3 and is refused. *)
Definition el_az_of (rx_ecef : list R) (sv_pos : xyz_array) : result (list R * list R) :=
  match sv_pos with
  | Flat _ => Raise RuntimeError
  | Columns cols => Return (ecef_to_el_az rx_ecef cols)
  end.

(** *** [_find_visible_svs] (lines 250-291) *)
Definition _find_visible_svs (gps_millis : ndarray R) (rx_ecef : list R)
    (ephem : option (list Eph.t)) (sv_posvel : option ref) (el_mask : R)
    (h : heap) : result (list Eph.t) :=
  approx_posvel <-
    match sv_posvel with
    | None => find_sv_states (nd_map (fun t => t - 1000 * T_TRANS) gps_millis) ephem
    | Some r =>
        match ephem with
        | None => Raise (AssertionError
                    "Must provide ephemeris or positions to find visible satellites")
        | Some _ => deref h r
        end
    end ;;
  let '(approx_pos, _) := _extract_pos_vel_arr approx_posvel in
  '(x, y, z) <- reshape_3_1 rx_ecef ;;
  approx_el_az <- el_az_of [x; y; z] approx_pos ;;
  let keep_ind := map (fun el => Rgtb el el_mask) (fst approx_el_az) in
  match ephem with
  | None => Raise AttributeError
  | Some ephem => copy_cols ephem (nonzero keep_ind)
  end.

Definition default_el_mask : R := 5.

(** *** [_find_delxyz_range] (lines 345-369)

    [del_pos] is given by its columns.  The receiver position is tiled to
    3xN and subtracted; against the flat array of a one-column table,
    NumPy broadcasts the subtraction to a 3x3 array, whose column [j]
    holds coordinate [j] of the satellite minus each of the three
    coordinates of the receiver.  The norm is taken along each column. *)
Definition _find_delxyz_range (sv_posvel : list Sv.t) (rx_ecef : list R)
  : result (list (R * R * R) * list R) :=
  '(rx, ry, rz) <- reshape_3_1 rx_ecef ;;
  let '(sv_pos, _) := _extract_pos_vel_arr sv_posvel in
  let del_pos :=
    match sv_pos with
    | Columns cols => map (fun '(x, y, z) => (x - rx, y - ry, z - rz)) cols
    | Flat (x, y, z) =>
        [(x - rx, x - ry, x - rz); (y - rx, y - ry, y - rz); (z - rx, z - ry, z - rz)]
    end in
  let true_range := map (fun '(dx, dy, dz) => sqrt (dx * dx + dy * dy + dz * dz)) del_pos in
  Return (del_pos, true_range).

(** *** [_find_sv_location] (lines 294-342)

    Lines 337-340 compute new rows [x_sv_m] and [y_sv_m] from the rows of
    the table that [sv_posvel] names at that point and from [t_corr], and
    assign them in that table.  [t_corr] has one entry per range, which is
    one per column except for a table of one column. *)
Definition set_x_y (sv_posvel : list Sv.t) (x_row y_row : list R) : list Sv.t :=
  map (fun '(s, x, y) =>
         {| Sv.sv_id := Sv.sv_id s;
            Sv.times := Sv.times s;
            Sv.x_sv_m := x;
            Sv.y_sv_m := y;
            Sv.z_sv_m := Sv.z_sv_m s;
            Sv.vx_sv_mps := Sv.vx_sv_mps s;
            Sv.vy_sv_mps := Sv.vy_sv_mps s;
            Sv.vz_sv_mps := Sv.vz_sv_mps s |})
      (combine (combine sv_posvel x_row) y_row).

Definition rotate_rows (sv_posvel : list Sv.t) (t_corr : list R) : result (list Sv.t) :=
  let x_sv_m := map Sv.x_sv_m sv_posvel in
  let y_sv_m := map Sv.y_sv_m sv_posvel in
  del_x <- elementwise Rmult (map (Rmult OMEGA_E_DOT) x_sv_m) t_corr ;;
  del_y <- elementwise Rmult (map (Rmult OMEGA_E_DOT) y_sv_m) t_corr ;;
  new_x <- elementwise Rplus x_sv_m del_x ;;
  x_row <- broadcast (length sv_posvel) (Vector new_x) ;;
  new_y <- elementwise Rplus y_sv_m del_y ;;
  y_row <- broadcast (length sv_posvel) (Vector new_y) ;;
  Return (set_x_y sv_posvel x_row y_row).

Definition _find_sv_location (gps_millis : ndarray R) (rx_ecef : list R)
    (ephem : option (list Eph.t)) (sv_posvel : option ref) (h : heap)
  : result ((ref * list (R * R * R) * list R) * heap) :=
  '(rx, ry, rz) <- reshape_3_1 rx_ecef ;;
  let rx_ecef := [rx; ry; rz] in
  '(sv_posvel, h) <-
    match sv_posvel with
    | Some r => Return (r, h)
    | None =>
        match ephem with
        | None => Raise (AssertionError
                    "Must provide ephemeris or positions to find satellites states")
        | Some _ =>
            states <- find_sv_states (nd_map (fun t => t - 1000 * T_TRANS) gps_millis) ephem ;;
            '(_, true_range) <- _find_delxyz_range states rx_ecef ;;
            let t_corr := map (fun d => d / C) true_range in
            millis <- elementwise (fun t tc => t - 1000 * tc) (entries gps_millis) t_corr ;;
            states <- find_sv_states (Vector millis) ephem ;;
            Return (alloc h states)
        end
    end ;;
  states <- deref h sv_posvel ;;
  '(del_pos, true_range) <- _find_delxyz_range states rx_ecef ;;
  let t_corr := map (fun d => d / C) true_range in
  states <- rotate_rows states t_corr ;;
  let h := store h sv_posvel states in
  Return (sv_posvel, del_pos, true_range, h).

End SvModels.

(** ** Dilution of precision

    [gnss_lib_py/utils/metrics.py] is not among the sources of this
    development: only its tests are.  The definitions of this module are
    written from the specification (sections 4.4 and 4.5) and from what
    [tests/utils/test_metrics.py] observes. *)
Module Dop.

(** A double that may be the not-a-number value. *)
Inductive float64 : Type :=
| NaN
| Num (x : R).

Definition fadd (a b : float64) : float64 :=
  match a, b with
  | Num x, Num y => Num (x + y)
  | _, _ => NaN
  end.

Definition fsqrt (a : float64) : float64 :=
  match a with
  | Num x => if Rlt_dec x 0 then NaN else Num (sqrt x)
  | NaN => NaN
  end.

(** One row of the multi-epoch table. *)
Record Obs : Type := mkObs {
  gps_millis : Z;
  el_sv_deg : R;
  az_sv_deg : R
}.

Definition vec4 : Type := (R * R * R * R)%type.
Definition mat : Type := nat -> nat -> R.

(** Modelled from the spec: [calculate_enu_unit_vectors] of metrics.py,
    east = cos(el) sin(az), north = cos(el) cos(az), up = sin(el), the
    angles converted to radians. *)
Definition calculate_enu_unit_vectors (navdata : list Obs) : list (R * R * R) :=
  map (fun o =>
         let el := deg2rad (el_sv_deg o) in
         let az := deg2rad (az_sv_deg o) in
         (cos el * sin az, cos el * cos az, sin el)) navdata.

(** Modelled from the spec: [calculate_enut_matrix] of metrics.py, the
    unit vectors with a constant column of ones appended. *)
Definition calculate_enut_matrix (navdata : list Obs) : list vec4 :=
  map (fun '(east, north, up) => (east, north, up, 1))
      (calculate_enu_unit_vectors navdata).

Definition entry (r : vec4) (i : nat) : R :=
  let '(east, north, up, time) := r in
  match i with
  | 0%nat => east
  | 1%nat => north
  | 2%nat => up
  | _ => time
  end.

(** [G.T @ G] *)
Definition gram (G : list vec4) : mat :=
  fun i j => fold_right (fun r acc => entry r i * entry r j + acc) 0 G.

Definition skip (k a : nat) : nat := if Nat.ltb a k then a else S a.

Definition minor (M : mat) (i j : nat) : mat :=
  fun a b => M (skip i a) (skip j b).

Definition det3 (N : mat) : R :=
  N 0%nat 0%nat * (N 1%nat 1%nat * N 2%nat 2%nat - N 1%nat 2%nat * N 2%nat 1%nat)
  - N 0%nat 1%nat * (N 1%nat 0%nat * N 2%nat 2%nat - N 1%nat 2%nat * N 2%nat 0%nat)
  + N 0%nat 2%nat * (N 1%nat 0%nat * N 2%nat 1%nat - N 1%nat 1%nat * N 2%nat 0%nat).

Definition det4 (M : mat) : R :=
  M 0%nat 0%nat * det3 (minor M 0 0)
  - M 0%nat 1%nat * det3 (minor M 0 1)
  + M 0%nat 2%nat * det3 (minor M 0 2)
  - M 0%nat 3%nat * det3 (minor M 0 3).

Definition cofactor_sign (i j : nat) : R :=
  if Nat.even (i + j) then 1 else -1.

(** Modelled from the spec: [np.linalg.inv] on a 4x4 matrix of exact
    numbers, which refuses a singular matrix with [LinAlgError] (the
    refusal that [test_singularity_dop] expects for the Gram matrix). *)
Definition linalg_inv (M : mat) : result mat :=
  if Req_dec_T (det4 M) 0 then Raise LinAlgError
  else Return (fun i j => cofactor_sign i j * det3 (minor M j i) / det4 M).

Record DopResult : Type := mkDop {
  dop_matrix : list (list float64);
  GDOP : float64;
  HDOP : float64;
  VDOP : float64;
  PDOP : float64;
  TDOP : float64
}.

Definition axes : list nat := [0; 1; 2; 3]%nat.

Definition tabulate (f : nat -> nat -> float64) : list (list float64) :=
  map (fun i => map (f i) axes) axes.

Definition at_ (m : list (list float64)) (i j : nat) : float64 :=
  nth j (nth i m []) NaN.

(** Modelled from the spec: [calculate_dop] of metrics.py.  The DOP
    matrix is the inverse of the Gram matrix of the design matrix, every
    entry being not-a-number when the inversion is refused; the scalars
    are the square roots of the sums of its diagonal entries. *)
Definition calculate_dop (navdata : list Obs) : result DopResult :=
  let enut_matrix := calculate_enut_matrix navdata in
  m <- match linalg_inv (gram enut_matrix) with
       | Return D => Return (tabulate (fun i j => Num (D i j)))
       | Raise LinAlgError => Return (tabulate (fun _ _ => NaN))
       | Raise e => Raise e
       end ;;
  let ee := at_ m 0 0 in
  let nn := at_ m 1 1 in
  let uu := at_ m 2 2 in
  let tt := at_ m 3 3 in
  Return {| dop_matrix := m;
            GDOP := fsqrt (fadd (fadd (fadd ee nn) uu) tt);
            HDOP := fsqrt (fadd ee nn);
            VDOP := fsqrt uu;
            PDOP := fsqrt (fadd (fadd ee nn) uu);
            TDOP := fsqrt tt |}.

Definition is_nan (a : float64) : Prop := a = NaN.

Definition all_nan (d : DopResult) : Prop :=
  Forall (Forall is_nan) (dop_matrix d)
  /\ length (dop_matrix d) = 4%nat
  /\ Forall (fun row => length row = 4%nat) (dop_matrix d)
  /\ is_nan (GDOP d) /\ is_nan (HDOP d) /\ is_nan (VDOP d)
  /\ is_nan (PDOP d) /\ is_nan (TDOP d).

(** The selection of outputs of [get_dop], one flag per output. *)
Record Selection : Type := mkSel {
  sel_GDOP : bool;
  sel_HDOP : bool;
  sel_VDOP : bool;
  sel_PDOP : bool;
  sel_TDOP : bool;
  sel_dop_matrix : bool
}.

Definition default_selection : Selection :=
  {| sel_GDOP := false; sel_HDOP := true; sel_VDOP := true;
     sel_PDOP := false; sel_TDOP := false; sel_dop_matrix := false |}.

(** The caller's selection objects live in a store, so that a change made
    by the callee would be seen by the caller. *)
Definition sel_store : Type := list Selection.

(** Insertion of an epoch in an ascending list without repetition. *)
Fixpoint insert_epoch (t : Z) (l : list Z) : list Z :=
  match l with
  | [] => [t]
  | u :: l' =>
      if Z.ltb t u then t :: l
      else if Z.eqb t u then l
      else u :: insert_epoch t l'
  end.

Definition unique_epochs (navdata : list Obs) : list Z :=
  fold_right (fun o acc => insert_epoch (gps_millis o) acc) [] navdata.

(** The ten independent entries of the symmetric matrix, labelled. *)
Definition dop_labels : list (string * (nat * nat)) :=
  [("dop_ee", (0, 0)); ("dop_en", (0, 1)); ("dop_eu", (0, 2)); ("dop_et", (0, 3));
   ("dop_nn", (1, 1)); ("dop_nu", (1, 2)); ("dop_nt", (1, 3));
   ("dop_uu", (2, 2)); ("dop_ut", (2, 3));
   ("dop_tt", (3, 3))]%nat%string.

Definition select_fields (which_dop : Selection) (d : DopResult)
  : list (string * float64) :=
  (if sel_GDOP which_dop then [("GDOP"%string, GDOP d)] else [])
  ++ (if sel_HDOP which_dop then [("HDOP"%string, HDOP d)] else [])
  ++ (if sel_VDOP which_dop then [("VDOP"%string, VDOP d)] else [])
  ++ (if sel_PDOP which_dop then [("PDOP"%string, PDOP d)] else [])
  ++ (if sel_TDOP which_dop then [("TDOP"%string, TDOP d)] else [])
  ++ (if sel_dop_matrix which_dop
      then map (fun '(label, (i, j)) => (label, at_ (dop_matrix d) i j)) dop_labels
      else []).

(** Modelled from the spec: [get_dop] of metrics.py ([selectDOP]).  One
    row per unique epoch, in ascending order, holding the epoch and the
    selected outputs of the satellites of that epoch.  The flags are read
    from the caller's selection object; the store is handed back as the
    call leaves it. *)
Definition get_dop (navdata : list Obs) (which_dop : nat) (st : sel_store)
  : result (list (Z * list (string * float64))) * sel_store :=
  match nth_error st which_dop with
  | None => (Raise TypeError, st)
  | Some caller_flags =>
      let flags :=
        {| sel_GDOP := sel_GDOP caller_flags;
           sel_HDOP := sel_HDOP caller_flags;
           sel_VDOP := sel_VDOP caller_flags;
           sel_PDOP := sel_PDOP caller_flags;
           sel_TDOP := sel_TDOP caller_flags;
           sel_dop_matrix := sel_dop_matrix caller_flags |} in
      (mapM (fun t =>
               let at_epoch := filter (fun o => Z.eqb (gps_millis o) t) navdata in
               d <- calculate_dop at_epoch ;;
               Return (t, select_fields flags d))
            (unique_epochs navdata),
       st)
  end.

End Dop.

(** ** Concrete collaborators, for the examples *)

(** The constants of [gnss_lib_py/utils/constants.py], which is not among
    the sources: the WGS-84 values of the GPS interface specification. *)
Definition gps_constants : Constants := {|
  MU_EARTH := 398600500000000;
  OMEGA_E_DOT := 72921151467 / 1000000000000000;
  C := 299792458;
  T_TRANS := 70 * (1 / 1000)
|}.

(** Modelled from the spec: the time converter of section 6, an exact map
    from milliseconds to GPS week and seconds of the week. *)
Definition millis_to_week_tow (gps_millis : R) : Z * R :=
  let gps_week := Int_part (gps_millis / 604800000) in
  (gps_week, gps_millis / 1000 - 604800 * IZR gps_week).

Definition rad2deg (x : R) : R := x * (180 / PI).

(** Modelled from the spec: elevation and azimuth in degrees of section
    4.4, taken over a spherical Earth; [coordinates.ecef_to_el_az] is not
    among the sources. *)
Definition spherical_el_az (rx_ecef : list R) (pos : list (R * R * R))
  : list R * list R :=
  let '(x, y, z) := match rx_ecef with
                    | [x; y; z] => (x, y, z)
                    | _ => (0, 0, 0)
                    end in
  let r := sqrt (x * x + y * y + z * z) in
  let p := sqrt (x * x + y * y) in
  let el_az :=
    map (fun '(sx, sy, sz) =>
           let dx := sx - x in
           let dy := sy - y in
           let dz := sz - z in
           let d := sqrt (dx * dx + dy * dy + dz * dz) in
           let up := (dx * x + dy * y + dz * z) / r in
           let east := (dy * x - dx * y) / p in
           let north := (dz * p * p - z * (dx * x + dy * y)) / (r * p) in
           (rad2deg (asin (up / d)), rad2deg (arctan2 east north))) pos in
  (map fst el_az, map snd el_az).

Definition ideal_collaborators : Collaborators := {|
  gps_millis_to_tow := millis_to_week_tow;
  ecef_to_el_az := spherical_el_az
|}.

(** ** The formulas of the specification, to compare the code with *)

Section Reference.
Context {K : Constants}.

(** Kepler's equation and its derivative (section 4.1). *)
Definition kepler_f (M e E : R) : R := M - E + e * sin E.
Definition kepler_f' (e E : R) : R := e * cos E - 1.

(** [n] Newton-Raphson steps started from [E = M]. *)
Definition newton_raphson (M e : R) (n : nat) : R :=
  Nat.iter n (fun E => E - kepler_f M e E / kepler_f' e E) M.

(** One step of the argument-of-latitude refinement (section 4.2). *)
Definition phi_step (phi_0 c_uc c_us phi_prev : R) : R :=
  phi_0 + c_uc * cos (2 * phi_prev) + c_us * sin (2 * phi_prev).

(** The rollover-adjusted elapsed time of section 4.2. *)
Definition elapsed (gps_week : Z) (gps_tow : R) (eph : Eph.t) : R :=
  gps_tow - Eph.t_oe eph
  + 604800 * (IZR (gps_week mod 1024) - IZR (Eph.gps_week eph mod 1024)).

(** The node longitude as the specification words it: Earth's rotation
    over the elapsed time is subtracted. *)
Definition spec_node_longitude (gps_week : Z) (gps_tow : R) (eph : Eph.t) : R :=
  Eph.Omega_0 eph - OMEGA_E_DOT * elapsed gps_week gps_tow eph
  + Eph.OmegaDot eph * elapsed gps_week gps_tow eph.

(** Seconds since the start of the reference week, rollover included. *)
Definition since_week_start (gps_week : Z) (gps_tow : R) (eph : Eph.t) : R :=
  gps_tow + 604800 * (IZR (gps_week mod 1024) - IZR (Eph.gps_week eph mod 1024)).

End Reference.

(** Euclidean norm of column [i] of an array given by three rows. *)
Definition column_norm (rows : list (list R)) (i : nat) : R :=
  let x := nth i (nth 0 rows []) 0 in
  let y := nth i (nth 1 rows []) 0 in
  let z := nth i (nth 2 rows []) 0 in
  sqrt (x * x + y * y + z * z).

(** A blank ephemeris column, to build examples from. *)
Definition eph0 : Eph.t :=
  {| Eph.sv_id := 1; Eph.gps_week := 0; Eph.t_oe := 0; Eph.sqrtA := 5153;
     Eph.e := 0; Eph.M_0 := 0; Eph.omega := 0; Eph.Omega_0 := 0;
     Eph.OmegaDot := 0; Eph.deltaN := 0; Eph.i_0 := 0; Eph.IDOT := 0;
     Eph.C_is := 0; Eph.C_ic := 0; Eph.C_rs := 0; Eph.C_rc := 0;
     Eph.C_uc := 0; Eph.C_us := 0 |}.

(** The corrections of the last pass of the solver's loop, one per
    satellite (empty while [delta_ecc_anom] is unbound). *)
Definition last_corrections (cols : list (R * R)) (max_iter : nat)
  : list R :=
  match snd (newton_loop cols max_iter) with
  | Some delta_ecc_anom => delta_ecc_anom
  | None => []
  end.

(** An orbit within the invariants of an ephemeris record (its
    eccentricity lies in [[0,1)], see [stuck_e_range]) on which the Newton
    iteration started at the mean anomaly never settles: it alternates
    between two values that are [21/5] apart. *)
Definition stuck_M : R := 21 / 5 - atan (21 / 5) - PI.
Definition stuck_e : R := (21 / 5) / (21 / 5 * cos stuck_M - sin stuck_M).

Definition stuck_eph : Eph.t :=
  {| Eph.sv_id := 1; Eph.gps_week := 0; Eph.t_oe := 0; Eph.sqrtA := 5153;
     Eph.e := stuck_e; Eph.M_0 := stuck_M; Eph.omega := 0; Eph.Omega_0 := 0;
     Eph.OmegaDot := 0; Eph.deltaN := 0; Eph.i_0 := 0; Eph.IDOT := 0;
     Eph.C_is := 0; Eph.C_ic := 0; Eph.C_rs := 0; Eph.C_rc := 0;
     Eph.C_uc := 0; Eph.C_us := 0 |}.

(** The same orbit run backwards: the mean anomaly has the opposite sign. *)
Definition mirrored_eph : Eph.t :=
  {| Eph.sv_id := 2; Eph.gps_week := 0; Eph.t_oe := 0; Eph.sqrtA := 5153;
     Eph.e := stuck_e; Eph.M_0 := - stuck_M; Eph.omega := 0; Eph.Omega_0 := 0;
     Eph.OmegaDot := 0; Eph.deltaN := 0; Eph.i_0 := 0; Eph.IDOT := 0;
     Eph.C_is := 0; Eph.C_ic := 0; Eph.C_rs := 0; Eph.C_rc := 0;
     Eph.C_uc := 0; Eph.C_us := 0 |}.

(** An ephemeris column whose time of ephemeris is two hours into the
    week. *)
Definition eph_two_hours : Eph.t :=
  {| Eph.sv_id := 1; Eph.gps_week := 0; Eph.t_oe := 7200; Eph.sqrtA := 5153;
     Eph.e := 0; Eph.M_0 := 0; Eph.omega := 0; Eph.Omega_0 := 0;
     Eph.OmegaDot := 0; Eph.deltaN := 0; Eph.i_0 := 0; Eph.IDOT := 0;
     Eph.C_is := 0; Eph.C_ic := 0; Eph.C_rs := 0; Eph.C_rc := 0;
     Eph.C_uc := 0; Eph.C_us := 0 |}.

(** A table of precomputed states that a caller hands over: a satellite
    straight above a receiver on the equator and a satellite on the other
    side of the Earth. *)
Definition caller_state : Sv.t :=
  {| Sv.sv_id := 1; Sv.times := 0;
     Sv.x_sv_m := 26560000; Sv.y_sv_m := 0; Sv.z_sv_m := 0;
     Sv.vx_sv_mps := 0; Sv.vy_sv_mps := 3870; Sv.vz_sv_mps := 0 |}.

Definition far_state : Sv.t :=
  {| Sv.sv_id := 2; Sv.times := 0;
     Sv.x_sv_m := -26560000; Sv.y_sv_m := 0; Sv.z_sv_m := 0;
     Sv.vx_sv_mps := 0; Sv.vy_sv_mps := -3870; Sv.vz_sv_mps := 0 |}.

Definition caller_table : list Sv.t := [caller_state; far_state].

Definition caller_heap : heap := [caller_table].

(** A store whose only table holds a single satellite. *)
Definition single_heap : heap := [[caller_state]].


Definition equator_rx : list R := [6378137; 0; 0].

(** The two scenarios of [test_singularity_dop] and the flags of one
    case of [test_simple_get_dop]. *)
Definition singularity_sat_scenario : list Dop.Obs :=
  repeat (Dop.mkObs 0 30 90) 5.

Definition too_few_sat_scenario : list Dop.Obs :=
  [Dop.mkObs 0 20 30; Dop.mkObs 0 30 60].

Definition all_but_matrix : Dop.Selection :=
  Dop.mkSel true true true true true false.

(** Line 165 of [find_sv_states]: the corrected orbital radius of one
    satellite, with the harmonics left by the last pass of the loop of
    lines 147-151. *)
Definition orb_radius (eph : Eph.t) (ecc_anom : R) : R :=
  let ecc := Eph.e eph in
  let e_cos_e := 1 - ecc * cos ecc_anom in
  let phi_0 := true_anomaly ecc ecc_anom + Eph.omega eph in
  let phi := Nat.iter 4 (phi_step phi_0 (Eph.C_uc eph) (Eph.C_us eph)) phi_0 in
  let r_corr := Eph.C_rc eph * cos (2 * phi) + Eph.C_rs eph * sin (2 * phi) in
  Eph.sqrtA eph ^ 2 * e_cos_e + r_corr.

(** Two satellites on circular orbits. *)
Definition circular_ephem : list Eph.t := [eph0; eph_two_hours].

(** One column of a table after lines 337-340, for the entry [t_corr] of
    that column. *)
Definition rotate_state {K : Constants} (s : Sv.t) (t_corr : R) : Sv.t :=
  {| Sv.sv_id := Sv.sv_id s;
     Sv.times := Sv.times s;
     Sv.x_sv_m := Sv.x_sv_m s + OMEGA_E_DOT * Sv.x_sv_m s * t_corr;
     Sv.y_sv_m := Sv.y_sv_m s + OMEGA_E_DOT * Sv.y_sv_m s * t_corr;
     Sv.z_sv_m := Sv.z_sv_m s;
     Sv.vx_sv_mps := Sv.vx_sv_mps s;
     Sv.vy_sv_mps := Sv.vy_sv_mps s;
     Sv.vz_sv_mps := Sv.vz_sv_mps s |}.

(** ** Reading RINEX files

    The parts of [gnss_lib_py/parsers/rinex.py] that work on text and on
    plain numbers.  A file is the list of its lines and a Python string is
    a string of bytes: RINEX files are ASCII.  The pandas tables and the
    georinex loader are outside this development. *)
Module Rinex.

Inductive pyexn : Type :=
| KeyError (key : string)
| IndexError
| ValueError
| OverflowError
| RuntimeError.

Inductive outcome (A : Type) : Type :=
| Ok (a : A)
| Fail (e : pyexn).

Arguments Ok {A} a.
Arguments Fail {A} e.

Definition and_then {A B : Type} (m : outcome A) (k : A -> outcome B) : outcome B :=
  match m with
  | Ok a => k a
  | Fail e => Fail e
  end.

Fixpoint for_each {A B : Type} (f : A -> outcome B) (l : list A) : outcome (list B) :=
  match l with
  | [] => Ok []
  | a :: l' =>
      and_then (f a) (fun b => and_then (for_each f l') (fun bs => Ok (b :: bs)))
  end.

(** [needle in hay] on strings. *)
Fixpoint contains (needle hay : string) : bool :=
  (String.prefix needle hay
   || match hay with
      | EmptyString => false
      | String _ rest => contains needle rest
      end)%bool.

(** [str.isspace] on an ASCII character: tab to carriage return, the four
    separators 28 to 31, and the space. *)
Definition is_space (c : ascii) : bool :=
  let n := nat_of_ascii c in
  ((Nat.leb 9 n && Nat.leb n 13) || (Nat.leb 28 n && Nat.leb n 32))%bool.

(** [str.split()]: the maximal runs of characters that are not spaces. *)
Fixpoint split (s : string) : list string :=
  match s with
  | EmptyString => []
  | String c rest =>
      let tokens := split rest in
      if is_space c then tokens
      else match rest with
           | EmptyString => [String c EmptyString]
           | String c' _ =>
               if is_space c' then String c EmptyString :: tokens
               else match tokens with
                    | t :: ts => String c t :: ts
                    | [] => [String c EmptyString]
                    end
           end
  end.

Definition is_digit (c : ascii) : bool :=
  let n := nat_of_ascii c in (Nat.leb 48 n && Nat.leb n 57)%bool.

Definition digit_value (c : ascii) : Z := Z.of_nat (nat_of_ascii c - 48).

(** The digits of an integer literal: decimal digits, with single
    underscores allowed between two digits. *)
Fixpoint digits_value (s : string) (acc : Z) (after_digit : bool) : option Z :=
  match s with
  | EmptyString => if after_digit then Some acc else None
  | String c rest =>
      if is_digit c then digits_value rest (10 * acc + digit_value c)%Z true
      else if Ascii.eqb c "_" then
        (if after_digit then digits_value rest acc false else None)
      else None
  end.

(** The number of decimal digits of a string, and the most that [int]
    converts: CPython refuses a longer numeral with [ValueError] (the
    default of [sys.get_int_max_str_digits()]). *)
Fixpoint count_digits (s : string) : nat :=
  match s with
  | EmptyString => O
  | String c rest => if is_digit c then S (count_digits rest) else count_digits rest
  end.

Definition int_max_str_digits : nat := 4300.

(** [int(s)] on a string: surrounding spaces are dropped, then an optional
    sign and the digits. *)
Definition py_int (s : string) : outcome Z :=
  match split s with
  | [t] =>
      let signed :=
        match t with
        | String "-" digits => option_map Z.opp (digits_value digits 0 false)
        | String "+" digits => digits_value digits 0 false
        | _ => digits_value t 0 false
        end in
      match signed with
      | Some n =>
          if Nat.ltb int_max_str_digits (count_digits t) then Fail ValueError else Ok n
      | None => Fail ValueError
      end
  | _ => Fail ValueError
  end.

(** One entry of [np.asarray(..., dtype=int)] on strings: the string is
    read as [int] reads it, and the number has to fit the 64 bits of the
    array, or the conversion raises [OverflowError]. *)
Definition int64_of_string (s : string) : outcome Z :=
  and_then (py_int s) (fun n =>
    if (Z.leb (- 2 ^ 63) n && Z.ltb n (2 ^ 63))%bool then Ok n else Fail OverflowError).

(** [line.split()[0]] *)
Definition first_token (line : string) : outcome string :=
  match split line with
  | t :: _ => Ok t
  | [] => Fail IndexError
  end.

(** *** [Rinex.load_leapseconds] (lines 237-259) *)
Fixpoint load_leapseconds (f : list string) : outcome (option Z) :=
  match f with
  | [] => Ok None
  | line :: rest =>
      if contains "LEAP SECONDS" line then
        and_then (first_token line) (fun t =>
        and_then (py_int t) (fun read_lp_sec => Ok (Some read_lp_sec)))
      else if contains "END OF HEADER" line then Ok None
      else load_leapseconds rest
  end.

(** *** The time of clock of [_get_ephemeris_dataframe] (lines 200-202)

    [nanos] is what [pd.to_numeric] gives for the time since 6 January
    1980: a whole number of nanoseconds.  [WEEKSEC] is a constant of
    [gnss_lib_py.utils.constants]. *)
Definition t_oc (WEEKSEC : R) (nanos : Z) : R :=
  let t_oc := IZR nanos in
  1 / 1000000000 * t_oc
  - WEEKSEC * IZR (Int_part (1 / 1000000000 * t_oc / WEEKSEC)).

(** *** The bands of [RinexObs3.__init__] (lines 385-390)

    [single_measure[1]], and the two loops over the measurement types of
    the header; [rx_bands] holds one-character strings. *)
Definition measure_band (single_measure : string) : outcome ascii :=
  match single_measure with
  | String _ (String band _) => Ok band
  | _ => Fail IndexError
  end.

Fixpoint bands_of_measures (rx_measures : list string) (rx_bands : list ascii)
  : outcome (list ascii) :=
  match rx_measures with
  | [] => Ok rx_bands
  | single_measure :: rest =>
      and_then (measure_band single_measure) (fun band =>
        if existsb (Ascii.eqb band) rx_bands
        then bands_of_measures rest rx_bands
        else bands_of_measures rest (rx_bands ++ [band]))
  end.

Fixpoint bands_of_fields (obs_measure_types : list (list string)) (rx_bands : list ascii)
  : outcome (list ascii) :=
  match obs_measure_types with
  | [] => Ok rx_bands
  | rx_measures :: rest =>
      and_then (bands_of_measures rx_measures rx_bands) (bands_of_fields rest)
  end.

Definition rx_bands (obs_measure_types : list (list string)) : outcome (list ascii) :=
  bands_of_fields obs_measure_types [].

(** *** Constellation and number of a satellite (lines 160-165, 401-406)

    [CONSTELLATION_CHARS] is a dictionary of
    [gnss_lib_py.utils.constants], given by its items; the three
    comprehensions run one after the other, then [np.asarray] with
    [dtype=int] converts the numbers.  The result is the rows
    [gnss_sv_id], [gnss_id] and [sv_id]. *)
Fixpoint lookup {V : Type} (key : ascii) (items : list (ascii * V)) : option V :=
  match items with
  | [] => None
  | (k, v) :: rest => if Ascii.eqb key k then Some v else lookup key rest
  end.

Definition first_char (sv_id : string) : outcome ascii :=
  match sv_id with
  | String c _ => Ok c
  | EmptyString => Fail IndexError
  end.

Definition after_first (sv_id : string) : string :=
  match sv_id with
  | String _ rest => rest
  | EmptyString => EmptyString
  end.

Definition split_sv_ids (CONSTELLATION_CHARS : list (ascii * string)) (sv_id : list string)
  : outcome (list string * list string * list Z) :=
  let gnss_sv_id := sv_id in
  and_then (for_each first_char sv_id) (fun gnss_chars =>
  let gnss_nums := map after_first sv_id in
  and_then (for_each (fun gnss_char =>
                        match lookup gnss_char CONSTELLATION_CHARS with
                        | Some name => Ok name
                        | None => Fail (KeyError (String gnss_char EmptyString))
                        end) gnss_chars) (fun gnss_id =>
  and_then (for_each int64_of_string gnss_nums) (fun nums =>
  Ok (gnss_sv_id, gnss_id, nums)))).

(** *** [Rinex.get_iono_params] (lines 209-235)

    The header that [gr.rinexheader] returns is given by its items, and
    [float] is a parameter.  An array is given by its rows. *)
Section Iono.
Variable F : Type.
Variable nan : F.
Variable py_float : string -> outcome F.

Fixpoint header_get (key : string) (header : list (string * string)) : outcome string :=
  match header with
  | [] => Fail (KeyError key)
  | (k, v) :: rest => if String.eqb key k then Ok v else header_get key rest
  end.

(** [s.replace('D', 'E')] *)
Fixpoint replace_D_E (s : string) : string :=
  match s with
  | EmptyString => EmptyString
  | String c rest => String (if Ascii.eqb c "D" then "E"%char else c) (replace_D_E rest)
  end.

(** One of the two [try] blocks: the parameters of [key] as an array of one
    row, or the 1x1 array of not-a-number when the key is missing.  Only
    [KeyError] is caught. *)
Definition iono_record (key : string) (header : list (string * string))
  : outcome (list (list F)) :=
  match header_get key header with
  | Ok value =>
      and_then (for_each py_float (split (replace_D_E value))) (fun values => Ok [values])
  | Fail (KeyError _) => Ok [[nan]]
  | Fail e => Fail e
  end.

(** [np.vstack] of two arrays of at least two dimensions. *)
Definition vstack (a b : list (list F)) : outcome (list (list F)) :=
  match a, b with
  | ra :: _, rb :: _ =>
      if Nat.eqb (length ra) (length rb) then Ok (a ++ b) else Fail ValueError
  | _, _ => Ok (a ++ b)
  end.

Definition get_iono_params (header : list (string * string)) : outcome (list (list F)) :=
  and_then (iono_record "ION ALPHA" header) (fun ion_alpha =>
  and_then (iono_record "ION BETA" header) (fun ion_beta =>
  vstack ion_alpha ion_beta)).

End Iono.

(** *** The day before of [get_time_cropped_rinex] (lines 323-331)

    [datetime(year, month, day, 23, 59, 59, 999999)] accepts a date of the
    calendar and refuses any other with [ValueError]. *)
Definition is_leap (year : Z) : bool :=
  ((Z.eqb (year mod 4) 0 && negb (Z.eqb (year mod 100) 0)) || Z.eqb (year mod 400) 0)%bool.

Definition days_in_month (year month : Z) : Z :=
  if Z.eqb month 2 then (if is_leap year then 29 else 28)
  else if (Z.eqb month 4 || Z.eqb month 6 || Z.eqb month 9 || Z.eqb month 11)%bool then 30
  else 31.

Definition datetime (year month day : Z) : outcome (Z * Z * Z) :=
  if (Z.leb 1 year && Z.leb year 9999 && Z.leb 1 month && Z.leb month 12
      && Z.leb 1 day && Z.leb day (days_in_month year month))%bool
  then Ok (year, month, day)
  else Fail ValueError.

Definition prev_day_timestamp (timestamp : Z * Z * Z) : outcome (Z * Z * Z) :=
  let '(year, month, day) := timestamp in
  datetime year month (day - 1).

(** The decimal numeral of a natural number, and strings made of spaces
    only. *)
Definition decimal (n : nat) : string :=
  DecimalString.NilZero.string_of_uint (Nat.to_uint n).

Fixpoint all_spaces (s : string) : bool :=
  match s with
  | EmptyString => true
  | String c rest => (is_space c && all_spaces rest)%bool
  end.

Fixpoint no_space (s : string) : bool :=
  match s with
  | EmptyString => true
  | String c rest => (negb (is_space c) && no_space rest)%bool
  end.

(** The three identifiers of the documentation of [Rinex], and the items
    of [CONSTELLATION_CHARS] they need. *)
Definition documented_ids : list string := ["G01"; "E11"; "R06"]%string.

Definition documented_chars : list (ascii * string) :=
  [("G"%char, "gps"%string); ("R"%char, "glonass"%string); ("E"%char, "galileo"%string)].

(** A broadcast header with the ionosphere record ION ALPHA only, and one
    with both records. *)
Definition alpha_only_header : list (string * string) :=
  [("ION ALPHA", "0.1118D-07 0.0000D+00 -0.5960D-07 0.0000D+00")]%string.

Definition both_records_header : list (string * string) :=
  [("ION BETA", "0.9011D+05 0.0000D+00 -0.1966D+06 0.0000D+00");
   ("ION ALPHA", "0.1118D-07 0.0000D+00 -0.5960D-07 0.0000D+00")]%string.

(** The head of a navigation file with its leap-second record, and the
    head of one without. *)
Definition nav_before : list string :=
  ["     3.04           N: GNSS NAV DATA    M: MIXED            RINEX VERSION / TYPE"]%string.

Definition nav_leap_rest : string :=
  "    18  2185     7GPS                                 LEAP SECONDS"%string.

Definition nav_header_no_leap : list string :=
  ["     3.04           N: GNSS NAV DATA    M: MIXED            RINEX VERSION / TYPE";
   "                                                            END OF HEADER"]%string.

(** The measurement types of an observation header of two constellations. *)
Definition obs_fields : list (list string) :=
  [["C1C"; "L1C"; "C2W"; "L2W"]; ["C1C"; "C5Q"]]%string.

End Rinex.

(** * Properties *)

(** ** Lists and the error monad *)

Lemma combine_map_r {A B : Type} (g : A -> B) (l : list A) :
  combine l (map g l) = map (fun x => (x, g x)) l.
Proof.
  induction l as [|a l IH]; simpl; [reflexivity | now rewrite IH].
Qed.

Lemma mapM_total {A B : Type} (f : A -> result B) (l : list A) :
  (forall a, exists b, f a = Return b) -> exists bs, mapM f l = Return bs.
Proof.
  intros Hf. induction l as [|a l [bs IH]]; [now exists []|].
  destruct (Hf a) as [b Hb]. exists (b :: bs). simpl. now rewrite Hb, IH.
Qed.

Lemma Rgtb_true (x y : R) : Rgtb x y = true <-> y < x.
Proof.
  unfold Rgtb. destruct (Rlt_dec y x); split; intros; auto; discriminate.
Qed.

(** ** Broadcasting *)

Lemma common_length_same (n : nat) : common_length n n = Return n.
Proof.
  unfold common_length. destruct (Nat.eqb n 1); [reflexivity|].
  now rewrite Nat.eqb_refl.
Qed.

Lemma common_length_1_l (n : nat) : common_length 1 n = Return n.
Proof. reflexivity. Qed.

Lemma stretch_same {A : Type} (xs : list A) : stretch (length xs) xs = xs.
Proof. destruct xs as [|x [|y xs]]; reflexivity. Qed.

Lemma stretch_length {A : Type} (n : nat) (xs : list A) :
  length xs <> 1%nat -> stretch n xs = xs.
Proof. destruct xs as [|x [|y xs]]; simpl; intros H; congruence. Qed.

(** A value that a table of [n] columns takes has one entry, or [n]. *)
Lemma broadcast_entries {A : Type} (n : nat) (t : ndarray A) (l : list A) :
  broadcast n t = Return l ->
  common_length (length (entries t)) n = Return n /\ stretch n (entries t) = l.
Proof.
  destruct t as [x | xs]; cbn [broadcast entries].
  - intros [= <-]. split; reflexivity.
  - unfold common_length. destruct (Nat.eqb (length xs) 1) eqn:E1.
    + intros [= <-]. split; reflexivity.
    + destruct (Nat.eqb (length xs) n) eqn:En; [|discriminate].
      intros [= <-]. apply Nat.eqb_eq in En. apply Nat.eqb_neq in E1.
      split; [|now apply stretch_length].
      destruct (Nat.eqb n 1); [now rewrite En | reflexivity].
Qed.

Lemma broadcast_same {A : Type} (xs : list A) :
  broadcast (length xs) (Vector xs) = Return xs.
Proof.
  cbn [broadcast]. rewrite Nat.eqb_refl, stretch_same.
  now destruct (Nat.eqb (length xs) 1).
Qed.

Lemma elementwise_same_length {A B C : Type} (f : A -> B -> C) (xs : list A) (ys : list B) :
  length xs = length ys ->
  elementwise f xs ys = Return (map (fun '(x, y) => f x y) (combine xs ys)).
Proof.
  intros H. unfold elementwise. rewrite H, common_length_same. cbn [bind].
  rewrite <- H at 1. now rewrite !stretch_same.
Qed.

Lemma elementwise_scalar {A B C : Type} (f : A -> B -> C) (x : A) (ys : list B) :
  elementwise f [x] ys = Return (map (f x) ys).
Proof.
  unfold elementwise. cbn [length]. rewrite common_length_1_l. cbn [bind stretch].
  rewrite stretch_same. f_equal.
  induction ys as [|y ys IH]; [reflexivity|].
  cbn [length repeat combine map]. now rewrite IH.
Qed.

(** ** The eccentric anomaly solver *)

Section KeplerSolver.
Context {K : Constants}.

(** When the table of the ephemeris takes the query week and the query
    time, the solver works on them column by column. *)
Lemma solver_operands_broadcast
    (gps_week : ndarray Z) (gps_tow : ndarray R) (ephem : list Eph.t)
    (weeks : list Z) (tows : list R) :
  broadcast (length ephem) gps_week = Return weeks ->
  broadcast (length ephem) gps_tow = Return tows ->
  solver_operands gps_week gps_tow ephem = Return (weeks, tows, ephem).
Proof.
  intros Hw Ht. apply broadcast_entries in Hw, Ht.
  destruct Hw as [Hw <-], Ht as [Ht <-]. unfold solver_operands.
  rewrite Hw, Ht. cbn [bind]. rewrite common_length_same. cbn [bind].
  now rewrite (stretch_same ephem).
Qed.

Lemma newton_update_fst (M e E : R) :
  fst (newton_update M e E) = E - kepler_f M e E / kepler_f' e E.
Proof. unfold newton_update, kepler_f, kepler_f'. simpl. unfold Rdiv. ring. Qed.

(** Whatever the data, [n] passes of the loop leave the [n]-th Newton
    iterate of each satellite in [ecc_anom]. *)
Lemma newton_loop_iterates (cols : list (R * R)) (n : nat) :
  fst (newton_loop cols n) = map (fun '(M, e) => newton_raphson M e n) cols.
Proof.
  unfold newton_loop, arange. rewrite Nat.sub_0_r.
  induction n as [|n IH].
  - simpl. apply map_ext. now intros [M e].
  - rewrite seq_S, fold_left_app. simpl.
    rewrite IH, combine_map_r, !map_map.
    apply map_ext. intros [M e]. simpl.
    apply newton_update_fst.
Qed.

(** The correction of the last pass, once the body has run. *)
Lemma newton_loop_delta (cols : list (R * R)) (n : nat) :
  snd (newton_loop cols (S n)) =
  Some (map (fun '(M, e) =>
               - kepler_f M e (newton_raphson M e n) / kepler_f' e (newton_raphson M e n))
            cols).
Proof.
  unfold newton_loop, arange. rewrite Nat.sub_0_r.
  rewrite seq_S, fold_left_app. simpl.
  pose proof (newton_loop_iterates cols n) as H.
  unfold newton_loop, arange in H. rewrite Nat.sub_0_r in H.
  rewrite H, combine_map_r, !map_map. f_equal.
  apply map_ext. now intros [M e].
Qed.

(** Without a pass, [delta_ecc_anom] is unbound at line 423. *)
Lemma compute_eccentric_anomaly_no_pass
    (gps_week : ndarray Z) (gps_tow : ndarray R) (ephem : list Eph.t)
    (tol : R) (weeks : list Z) (tows : list R) :
  broadcast (length ephem) gps_week = Return weeks ->
  broadcast (length ephem) gps_tow = Return tows ->
  _compute_eccentric_anomaly gps_week gps_tow ephem tol 0 = Raise UnboundLocalError.
Proof.
  intros Hw Ht. unfold _compute_eccentric_anomaly.
  now rewrite (solver_operands_broadcast _ _ _ _ _ Hw Ht).
Qed.

Lemma last_corrections_S (cols : list (R * R)) (n : nat) :
  snd (newton_loop cols (S n)) = Some (last_corrections cols (S n)).
Proof.
  unfold last_corrections. now rewrite newton_loop_delta.
Qed.

(** The outcome of the solver once its arguments are broadcast: it
    depends on the sign test of line 423 alone. *)
Lemma compute_eccentric_anomaly_outcome
    (gps_week : ndarray Z) (gps_tow : ndarray R) (ephem : list Eph.t)
    (tol : R) (n : nat) (weeks : list Z) (tows : list R) :
  broadcast (length ephem) gps_week = Return weeks ->
  broadcast (length ephem) gps_tow = Return tows ->
  let cols := kepler_cols weeks tows ephem in
  _compute_eccentric_anomaly gps_week gps_tow ephem tol (S n) =
  if existsb (fun d => Rgtb d tol) (last_corrections cols (S n))
  then Raise RuntimeWarning
  else Return (map (fun '(M, e) => newton_raphson M e (S n)) cols).
Proof.
  intros Hw Ht cols. unfold _compute_eccentric_anomaly.
  rewrite (solver_operands_broadcast _ _ _ _ _ Hw Ht). cbn [bind]. fold cols.
  pose proof (newton_loop_iterates cols (S n)) as Hfst.
  pose proof (last_corrections_S cols n) as Hsnd.
  destruct (newton_loop cols (S n)) as [ecc_anom delta].
  simpl in Hfst, Hsnd. subst ecc_anom delta. reflexivity.
Qed.

(** C6. For every query week, query time, ephemeris and tolerance, the
    solver runs the body of its loop exactly [max_iter] times, ten by
    default, whatever the corrections are: the count is the length of
    [np.arange(0, max_iter)].  After [S n] passes the array it holds is
    the Newton-Raphson iterate number [S n] of [E <- E - f(E)/f'(E)],
    [f(E) = M - E + e sin E], [f'(E) = e cos E - 1], started from the
    corrected mean anomaly [M], and the correction it holds is the last
    step [- f(E)/f'(E)] at iterate [n].  The solver returns that iterate
    exactly when no last correction is greater than the tolerance, and
    raises its convergence exception otherwise; operands that NumPy
    cannot broadcast are refused before the loop. *)
Theorem compute_eccentric_anomaly_fixed_newton
    (gps_week : ndarray Z) (gps_tow : ndarray R) (ephem : list Eph.t)
    (tol : R) (n : nat) :
  default_max_iter = 10%nat
  /\ length (arange 0 (S n)) = S n
  /\ match solver_operands gps_week gps_tow ephem with
     | Raise e => _compute_eccentric_anomaly gps_week gps_tow ephem tol (S n) = Raise e
     | Return (weeks, tows, columns) =>
         let cols := kepler_cols weeks tows columns in
         let E := map (fun '(M, e) => newton_raphson M e (S n)) cols in
         let dE := map (fun '(M, e) =>
                          - kepler_f M e (newton_raphson M e n)
                            / kepler_f' e (newton_raphson M e n)) cols in
         newton_loop cols (S n) = (E, Some dE)
         /\ _compute_eccentric_anomaly gps_week gps_tow ephem tol (S n) =
            if existsb (fun d => Rgtb d tol) dE then Raise RuntimeWarning else Return E
     end.
Proof.
  split; [reflexivity|]. split; [apply length_seq|].
  unfold _compute_eccentric_anomaly.
  destruct (solver_operands gps_week gps_tow ephem) as [[[weeks tows] columns] | e];
    [|reflexivity].
  cbn [bind]. cbv zeta.
  pose proof (newton_loop_iterates (kepler_cols weeks tows columns) (S n)) as Hfst.
  pose proof (newton_loop_delta (kepler_cols weeks tows columns) n) as Hsnd.
  destruct (newton_loop (kepler_cols weeks tows columns) (S n)) as [ecc_anom delta].
  cbn [fst snd] in Hfst, Hsnd. subst ecc_anom delta.
  split; reflexivity.
Qed.

Lemma sign_test_raises
    (gps_week : ndarray Z) (gps_tow : ndarray R) (ephem : list Eph.t)
    (tol : R) (n : nat) (weeks : list Z) (tows : list R) :
  broadcast (length ephem) gps_week = Return weeks ->
  broadcast (length ephem) gps_tow = Return tows ->
  (exists d, In d (last_corrections (kepler_cols weeks tows ephem) (S n)) /\ tol < d) ->
  _compute_eccentric_anomaly gps_week gps_tow ephem tol (S n) = Raise RuntimeWarning.
Proof.
  intros Hw Ht [d [Hin Hd]].
  rewrite (compute_eccentric_anomaly_outcome _ _ _ tol n _ _ Hw Ht).
  replace (existsb _ _) with true; [reflexivity|].
  symmetry. apply existsb_exists. exists d. split; [exact Hin|].
  now apply Rgtb_true.
Qed.

(** C1, as the code has it. When the correction of the last pass is
    greater than the tolerance for some satellite, the solver raises
    [RuntimeWarning]: the exception ends the computation and no iterate
    reaches the caller. *)
Theorem compute_eccentric_anomaly_raises
    (gps_week : ndarray Z) (gps_tow : ndarray R) (ephem : list Eph.t)
    (tol : R) (n : nat) (weeks : list Z) (tows : list R) :
  broadcast (length ephem) gps_week = Return weeks ->
  broadcast (length ephem) gps_tow = Return tows ->
  (exists d, In d (last_corrections (kepler_cols weeks tows ephem) (S n)) /\ tol < d) ->
  _compute_eccentric_anomaly gps_week gps_tow ephem tol (S n) = Raise RuntimeWarning
  /\ forall ecc_anom,
       _compute_eccentric_anomaly gps_week gps_tow ephem tol (S n) <> Return ecc_anom.
Proof.
  intros Hw Ht Hex.
  rewrite (sign_test_raises gps_week gps_tow ephem tol n weeks tows Hw Ht Hex).
  split; [reflexivity | discriminate].
Qed.

(** The other side of the sign test: corrections that are all at most the
    tolerance, however negative, let the iterate through. *)
Lemma compute_eccentric_anomaly_returns
    (gps_week : ndarray Z) (gps_tow : ndarray R) (ephem : list Eph.t)
    (tol : R) (n : nat) (weeks : list Z) (tows : list R) :
  broadcast (length ephem) gps_week = Return weeks ->
  broadcast (length ephem) gps_tow = Return tows ->
  (forall d, In d (last_corrections (kepler_cols weeks tows ephem) (S n)) -> d <= tol) ->
  _compute_eccentric_anomaly gps_week gps_tow ephem tol (S n) =
  Return (map (fun '(M, e) => newton_raphson M e (S n)) (kepler_cols weeks tows ephem)).
Proof.
  intros Hw Ht Hall.
  rewrite (compute_eccentric_anomaly_outcome _ _ _ tol n _ _ Hw Ht).
  replace (existsb _ _) with false; [reflexivity|].
  symmetry. apply not_true_is_false. intros Hex.
  apply existsb_exists in Hex. destruct Hex as [d [Hin Hd]].
  apply Rgtb_true in Hd. specialize (Hall d Hin). lra.
Qed.

End KeplerSolver.

(** ** An orbit on which the solver does not converge *)

Section StuckOrbit.

(** The first two partial sums of the alternating series of the
    arctangent enclose it. *)
Lemma atan_enclosure (x : R) :
  0 < x < 1 -> x - x ^ 3 / 3 <= atan x <= x.
Proof.
  intros Hx.
  assert (Hx' : 0 <= x <= 1) by lra.
  rewrite atan_eq_ps_atan by exact Hx.
  unfold ps_atan. destruct (Ratan.in_int x) as [Hin | Hout]; [|exfalso; apply Hout; lra].
  destruct (ps_atan_exists_1 x Hin) as [v Pv]. simpl.
  pose proof (alternated_series_ineq _ _ 0%nat
                (Ratan_seq_decreasing _ Hx') (Ratan_seq_converging _ Hx') Pv) as [Hlo Hhi].
  simpl in Hlo, Hhi. unfold tg_alt, Ratan_seq in Hlo, Hhi. simpl in Hlo, Hhi.
  split.
  - eapply Rle_trans; [|exact Hlo]. apply Req_le. field.
  - eapply Rle_trans; [exact Hhi|]. apply Req_le. field.
Qed.

Lemma PI_gt_3 : 3 < PI.
Proof. pose proof PI2_3_2. lra. Qed.

Lemma PI_le_68_21 : PI <= 68 / 21.
Proof.
  pose proof (PI_2_3_7_ineq 0) as [_ H].
  simpl in H. unfold tg_alt, PI_2_3_7_tg, Ratan_seq in H. simpl in H.
  lra.
Qed.

Lemma atan_21_5 : atan (21 / 5) = PI / 2 - atan (5 / 21).
Proof.
  assert (H : 0 < 21 / 5) by lra.
  pose proof (atan_inv (21 / 5) H) as Hinv.
  replace (/ (21 / 5)) with (5 / 21) in Hinv by field.
  lra.
Qed.

Lemma atan_5_21_range : 233 / 1000 <= atan (5 / 21) <= 5 / 21.
Proof.
  assert (H : 0 < 5 / 21 < 1) by lra.
  pose proof (atan_enclosure (5 / 21) H) as [Hlo Hhi].
  replace (5 / 21 - (5 / 21) ^ 3 / 3) with (6490 / 27783) in Hlo by field.
  lra.
Qed.

Lemma stuck_M_range : - (PI / 2) < stuck_M < 0.
Proof.
  unfold stuck_M. rewrite atan_21_5.
  pose proof atan_5_21_range. pose proof PI_gt_3. pose proof PI_le_68_21.
  lra.
Qed.

Lemma stuck_M_trig : sin stuck_M < 0 /\ 0 < cos stuck_M.
Proof.
  pose proof stuck_M_range as [Hlo Hhi]. split.
  - apply sin_lt_0_var; lra.
  - apply cos_gt_0; lra.
Qed.

Lemma stuck_e_pos : 0 < stuck_e.
Proof.
  pose proof stuck_M_trig as [Hs Hc]. unfold stuck_e.
  apply Rdiv_lt_0_compat; lra.
Qed.

Lemma stuck_denominator : 21 / 5 < 21 / 5 * cos stuck_M - sin stuck_M.
Proof.
  pose proof stuck_M_range as [Hlo Hhi].
  pose proof atan_5_21_range as [Hb Hb'].
  pose proof PI_gt_3. pose proof PI_le_68_21.
  pose proof (atan_bound (5 / 21)) as [Hb1 Hb2].
  set (h := stuck_M / 2).
  assert (Hh : - atan (5 / 21) < h).
  { unfold h, stuck_M. rewrite atan_21_5. lra. }
  assert (Hh0 : h < 0) by (unfold h; lra).
  assert (Htan : tan (- atan (5 / 21)) < tan h).
  { apply tan_increasing; lra. }
  rewrite tan_neg, tan_atan in Htan.
  assert (Hc : 0 < cos h) by (apply cos_gt_0; lra).
  assert (Hs : sin h < 0) by (apply sin_lt_0_var; lra).
  unfold tan in Htan.
  assert (Hsc : - (5 / 21) * cos h < sin h).
  { apply (Rmult_lt_compat_r (cos h)) in Htan; [|exact Hc].
    replace (sin h / cos h * cos h) with (sin h) in Htan by (field; lra).
    lra. }
  replace stuck_M with (2 * h) by (unfold h; field).
  rewrite sin_2a, cos_2a_sin.
  nra.
Qed.

Lemma stuck_e_lt_1 : stuck_e < 1.
Proof.
  pose proof stuck_denominator as H. unfold stuck_e.
  apply (Rmult_lt_reg_r (21 / 5 * cos stuck_M - sin stuck_M)); [lra|].
  replace (21 / 5 / (21 / 5 * cos stuck_M - sin stuck_M)
           * (21 / 5 * cos stuck_M - sin stuck_M)) with (21 / 5) by (field; lra).
  lra.
Qed.

(** The eccentricity of the orbit is that of an ellipse. *)
Lemma stuck_e_range : 0 <= stuck_e < 1.
Proof.
  pose proof stuck_e_pos. pose proof stuck_e_lt_1. lra.
Qed.

(** From the mean anomaly, one Newton step moves back by [21/5]. *)
Lemma stuck_step_down :
  newton_update stuck_M stuck_e stuck_M = (stuck_M - 21 / 5, - (21 / 5)).
Proof.
  pose proof stuck_M_trig as [Hs Hc].
  pose proof stuck_denominator as Hd.
  unfold newton_update, stuck_e.
  set (s := sin stuck_M) in *. set (c := cos stuck_M) in *.
  assert (Hdelta : - (stuck_M - stuck_M + 21 / 5 / (21 / 5 * c - s) * s)
                   / (21 / 5 / (21 / 5 * c - s) * c - 1) = - (21 / 5)).
  { field. split; lra. }
  rewrite Hdelta. f_equal; ring.
Qed.

Lemma stuck_low_trig :
  let q := sqrt (1 + (21 / 5) ^ 2) in
  0 < q
  /\ sin (stuck_M - 21 / 5) = 21 / 5 / q
  /\ cos (stuck_M - 21 / 5) = - (1 / q).
Proof.
  intros q.
  assert (Hq : 0 < q).
  { unfold q. apply sqrt_lt_R0. nra. }
  split; [exact Hq|].
  replace (stuck_M - 21 / 5) with (- (atan (21 / 5) + PI))
    by (unfold stuck_M; ring).
  rewrite sin_neg, cos_neg, neg_sin, neg_cos, sin_atan, cos_atan.
  replace ((21 / 5)²) with ((21 / 5) ^ 2) by (unfold Rsqr; ring).
  fold q. split; field; lra.
Qed.

(** From there, the next step moves forward by [21/5], back to the mean
    anomaly. *)
Lemma stuck_step_up :
  newton_update stuck_M stuck_e (stuck_M - 21 / 5) = (stuck_M, 21 / 5).
Proof.
  pose proof stuck_low_trig as [Hq [Hsin Hcos]].
  pose proof stuck_e_pos as He.
  unfold newton_update. rewrite Hsin, Hcos.
  set (q := sqrt (1 + (21 / 5) ^ 2)) in *.
  assert (Heq : 0 < stuck_e / q) by (apply Rdiv_lt_0_compat; lra).
  assert (Hdelta : - (stuck_M - (stuck_M - 21 / 5) + stuck_e * (21 / 5 / q))
                   / (stuck_e * - (1 / q) - 1) = 21 / 5).
  { field. split; [lra|].
    intros Hz. unfold Rdiv in Heq.
    assert (stuck_e = - q) by lra. lra. }
  rewrite Hdelta. f_equal; ring.
Qed.

(** When one step leads from the mean anomaly to [lo] and the next one
    leads back, ten passes of the loop end on the second correction. *)
Lemma newton_loop_two_cycle (M e lo d : R) :
  newton_update M e M = (lo, - d) ->
  newton_update M e lo = (M, d) ->
  newton_loop [(M, e)] 10 = ([M], Some [d]).
Proof.
  intros Hdown Hup.
  assert (Hd : forall delta i,
             newton_body [(M, e)] ([M], delta) i = ([lo], Some [- d])).
  { intros delta i. unfold newton_body. cbn [fst combine map]. now rewrite Hdown. }
  assert (Hu : forall delta i,
             newton_body [(M, e)] ([lo], delta) i = ([M], Some [d])).
  { intros delta i. unfold newton_body. cbn [fst combine map]. now rewrite Hup. }
  unfold newton_loop, arange.
  cbn [Nat.sub seq fold_left map fst].
  repeat (rewrite Hd, Hu). reflexivity.
Qed.

(** Ten passes of the loop end on a correction of [21/5]. *)
Lemma stuck_loop :
  newton_loop [(stuck_M, stuck_e)] 10 = ([stuck_M], Some [21 / 5]).
Proof.
  exact (newton_loop_two_cycle stuck_M stuck_e (stuck_M - 21 / 5) (21 / 5)
           stuck_step_down stuck_step_up).
Qed.

(** The Newton step is odd in the pair of anomalies. *)
Lemma newton_update_opp (M e E : R) :
  newton_update (- M) e (- E) =
  (- fst (newton_update M e E), - snd (newton_update M e E)).
Proof.
  unfold newton_update. cbn [fst snd]. rewrite sin_neg, cos_neg.
  f_equal; unfold Rdiv; ring.
Qed.

(** On the mirrored orbit the ten passes end on a correction of [-21/5]. *)
Lemma mirrored_loop :
  newton_loop [(- stuck_M, stuck_e)] 10 = ([- stuck_M], Some [- (21 / 5)]).
Proof.
  apply (newton_loop_two_cycle (- stuck_M) stuck_e (- (stuck_M - 21 / 5)) (- (21 / 5))).
  - now rewrite newton_update_opp, stuck_step_down.
  - now rewrite newton_update_opp, stuck_step_up.
Qed.

End StuckOrbit.

(** ** The solver on the stuck orbit *)

Section StuckSolver.
#[local] Existing Instance gps_constants.

Lemma stuck_cols :
  kepler_cols [0%Z] [0] [stuck_eph] = [(stuck_M, stuck_e)].
Proof.
  unfold kepler_cols, mean_anom, delta_t, gpsweek_diff, sqrt_mu_a. simpl.
  f_equal. f_equal. ring.
Qed.

Lemma stuck_last_corrections :
  last_corrections (kepler_cols [0%Z] [0] [stuck_eph]) default_max_iter = [21 / 5].
Proof.
  rewrite stuck_cols. unfold last_corrections, default_max_iter.
  rewrite stuck_loop. reflexivity.
Qed.

Lemma stuck_exceeds :
  exists d,
    In d (last_corrections (kepler_cols [0%Z] [0] [stuck_eph]) default_max_iter)
    /\ default_tol < d.
Proof.
  exists (21 / 5). rewrite stuck_last_corrections. split; [now left|].
  unfold default_tol. lra.
Qed.

(** C1, as the specification words it, fails.  On the stuck orbit, whose
    eccentricity is within [[0,1)], the magnitude of the last correction
    of the default ten passes exceeds the default tolerance, and the
    solver does not return an iterate: it raises. *)
Lemma compute_eccentric_anomaly_aborts :
  0 <= Eph.e stuck_eph < 1
  /\ (exists d,
        In d (last_corrections (kepler_cols [0%Z] [0] [stuck_eph]) default_max_iter)
        /\ default_tol < Rabs d)
  /\ (forall ecc_anom,
        _compute_eccentric_anomaly (Scalar 0%Z) (Scalar 0) [stuck_eph]
          default_tol default_max_iter <> Return ecc_anom).
Proof.
  split; [exact stuck_e_range|]. split.
  - destruct stuck_exceeds as [d [Hin Hd]]. exists d. split; [exact Hin|].
    pose proof (Rle_abs d). lra.
  - intros ecc_anom. unfold default_max_iter.
    rewrite (sign_test_raises (Scalar 0%Z) (Scalar 0) [stuck_eph]
               default_tol 9 [0%Z] [0] eq_refl eq_refl stuck_exceeds).
    discriminate.
Qed.

Lemma compute_eccentric_anomaly_raises_witness :
  _compute_eccentric_anomaly (Scalar 0%Z) (Scalar 0) [stuck_eph] default_tol 10
  = Raise RuntimeWarning
  /\ forall ecc_anom,
       _compute_eccentric_anomaly (Scalar 0%Z) (Scalar 0) [stuck_eph] default_tol 10
       <> Return ecc_anom.
Proof.
  apply (compute_eccentric_anomaly_raises (Scalar 0%Z) (Scalar 0) [stuck_eph]
           default_tol 9 [0%Z] [0]).
  - reflexivity.
  - reflexivity.
  - exact stuck_exceeds.
Defined.

Lemma mirrored_cols :
  kepler_cols [0%Z] [0] [mirrored_eph] = [(- stuck_M, stuck_e)].
Proof.
  unfold kepler_cols, mean_anom, delta_t, gpsweek_diff, sqrt_mu_a. simpl.
  f_equal. f_equal. ring.
Qed.

(** The test of line 423 is signed. On the mirrored orbit the last
    correction is [-21/5], far beyond the tolerance in magnitude, and the
    solver returns the unconverged iterate without raising. *)
Lemma compute_eccentric_anomaly_silent :
  last_corrections (kepler_cols [0%Z] [0] [mirrored_eph]) default_max_iter
  = [- (21 / 5)]
  /\ _compute_eccentric_anomaly (Scalar 0%Z) (Scalar 0) [mirrored_eph]
       default_tol default_max_iter = Return [- stuck_M].
Proof.
  assert (Hlast : last_corrections (kepler_cols [0%Z] [0] [mirrored_eph]) default_max_iter
                  = [- (21 / 5)]).
  { rewrite mirrored_cols. unfold last_corrections, default_max_iter.
    now rewrite mirrored_loop. }
  split; [exact Hlast|].
  unfold default_max_iter in *.
  rewrite (compute_eccentric_anomaly_returns (Scalar 0%Z) (Scalar 0) [mirrored_eph]
             default_tol 9 [0%Z] [0] eq_refl eq_refl).
  - rewrite <- newton_loop_iterates, mirrored_cols, mirrored_loop. reflexivity.
  - intros d Hd. rewrite Hlast in Hd. destruct Hd as [<- | []].
    unfold default_tol. lra.
Qed.

End StuckSolver.

(** ** Orbit propagation *)

Section Propagation.
Context {K : Constants}.

Lemma phi_fold (phi_0 c_uc c_us : R) (l : list nat) (st : phi_state) :
  fst (fold_left (phi_body phi_0 c_uc c_us) l st) =
  Nat.iter (length l) (phi_step phi_0 c_uc c_us) (fst st).
Proof.
  revert st. induction l as [|i l IH]; intros st; [reflexivity|].
  cbn [fold_left length]. rewrite IH, Nat.iter_succ_r.
  f_equal. unfold phi_body, phi_step. simpl. ring.
Qed.

Lemma phi_loop_trig (phi_0 c_uc c_us : R) :
  snd (phi_loop phi_0 c_uc c_us) =
  Some (cos (2 * Nat.iter 4 (phi_step phi_0 c_uc c_us) phi_0),
        sin (2 * Nat.iter 4 (phi_step phi_0 c_uc c_us) phi_0)).
Proof.
  unfold phi_loop, range.
  replace (seq 0 5) with (seq 0 4 ++ [4%nat]) by reflexivity.
  rewrite fold_left_app. cbn [fold_left]. unfold phi_body at 1.
  cbn [snd]. now rewrite phi_fold.
Qed.

(** C7. Whatever the input, the refinement of the argument of latitude
    runs its body for [range(5)], five times, each pass computing
    [phi_0 + C_uc cos(2 phi) + C_us sin(2 phi)] from the previous [phi];
    the loop has no test and no exit, and it leaves the cosine and sine of
    twice the fourth iterate in [cos_to_phi] and [sin_to_phi]. *)
Theorem phi_loop_five_passes (phi_0 c_uc c_us : R) :
  length (range 5) = 5%nat
  /\ phi_loop phi_0 c_uc c_us =
     fold_left (phi_body phi_0 c_uc c_us) (range 5) (phi_0, None)
  /\ fst (phi_loop phi_0 c_uc c_us) = Nat.iter 5 (phi_step phi_0 c_uc c_us) phi_0
  /\ snd (phi_loop phi_0 c_uc c_us) =
     Some (cos (2 * Nat.iter 4 (phi_step phi_0 c_uc c_us) phi_0),
           sin (2 * Nat.iter 4 (phi_step phi_0 c_uc c_us) phi_0)).
Proof.
  split; [reflexivity|]. split; [reflexivity|]. split.
  - unfold phi_loop. now rewrite phi_fold.
  - apply phi_loop_trig.
Qed.

(** The state of one satellite is always produced: the two names bound in
    the loop are bound when lines 164-222 read them. *)
Lemma sv_state_returns (gps_week : Z) (gps_tow : R) (eph : Eph.t) (ecc_anom : R) :
  exists s,
    sv_state gps_week gps_tow eph ecc_anom = Return s
    /\ Sv.sv_id s = Eph.sv_id eph
    /\ Sv.times s = gps_tow.
Proof.
  unfold sv_state. cbv zeta.
  pose proof (phi_loop_trig (true_anomaly (Eph.e eph) ecc_anom + Eph.omega eph)
                (Eph.C_uc eph) (Eph.C_us eph)) as Htrig.
  destruct (phi_loop _ _ _) as [phi trig]. cbn [snd] in Htrig. subst trig.
  eexists. split; [reflexivity|]. split; reflexivity.
Qed.

(** Scaling both coordinates by a positive number keeps the angle. *)
Lemma arctan2_scale (k y x : R) :
  0 < k -> arctan2 (y / k) (x / k) = arctan2 y x.
Proof.
  intros Hk. unfold arctan2.
  assert (Hik : 0 < / k) by now apply Rinv_0_lt_compat.
  assert (Hx : forall a, 0 < a -> 0 < a / k).
  { intros a Ha. unfold Rdiv. now apply Rmult_lt_0_compat. }
  assert (Hx' : forall a, a < 0 -> a / k < 0).
  { intros a Ha. unfold Rdiv. nra. }
  assert (Hq : x <> 0 -> y / k / (x / k) = y / x).
  { intros Hn. field. split; lra. }
  destruct (Rlt_dec 0 x) as [Hpos | Hnpos].
  - destruct (Rlt_dec 0 (x / k)) as [_ | Hn]; [|exfalso; apply Hn; auto].
    rewrite Hq by lra. reflexivity.
  - destruct (Rlt_dec 0 (x / k)) as [Hp | _].
    { exfalso. apply Hnpos. apply (Rmult_lt_compat_r k) in Hp; [|exact Hk].
      replace (x / k * k) with x in Hp by (field; lra). lra. }
    destruct (Rlt_dec x 0) as [Hneg | Hnneg].
    + destruct (Rlt_dec (x / k) 0) as [_ | Hn]; [|exfalso; apply Hn; auto].
      rewrite Hq by lra.
      destruct (Rle_dec 0 y) as [Hy | Hy]; destruct (Rle_dec 0 (y / k)) as [Hyk | Hyk];
        try reflexivity; exfalso.
      * apply Hyk. unfold Rdiv. nra.
      * apply Hy. apply (Rmult_le_compat_r k) in Hyk; [|lra].
        replace (y / k * k) with y in Hyk by (field; lra). lra.
    + assert (x = 0) by lra. subst x.
      destruct (Rlt_dec (0 / k) 0) as [Hn | _]; [exfalso; unfold Rdiv in Hn; lra|].
      destruct (Rlt_dec 0 y) as [Hy | Hy].
      * destruct (Rlt_dec 0 (y / k)) as [_ | Hn]; [reflexivity|exfalso; apply Hn; auto].
      * destruct (Rlt_dec 0 (y / k)) as [Hp | _].
        { exfalso. apply Hy. apply (Rmult_lt_compat_r k) in Hp; [|exact Hk].
          replace (y / k * k) with y in Hp by (field; lra). lra. }
        destruct (Rlt_dec y 0) as [Hy' | Hy'].
        -- destruct (Rlt_dec (y / k) 0) as [_ | Hn]; [reflexivity|exfalso; apply Hn; auto].
        -- destruct (Rlt_dec (y / k) 0) as [Hn | _]; [|reflexivity].
           exfalso. apply Hy'. apply (Rmult_lt_compat_r k) in Hn; [|exact Hk].
           replace (y / k * k) with y in Hn by (field; lra). lra.
Qed.

Lemma e_cos_e_pos (ecc ecc_anom : R) :
  0 <= ecc < 1 -> 0 < 1 - ecc * cos ecc_anom.
Proof.
  intros He. pose proof (COS_bound ecc_anom). nra.
Qed.

(** C9. For an eccentricity in [[0,1)] and any eccentric anomaly, the true
    anomaly of lines 135-142 is [atan2(sqrt(1 - e^2) sin E, cos E - e)]. *)
Theorem true_anomaly_atan2 (ecc ecc_anom : R) :
  0 <= ecc < 1 ->
  true_anomaly ecc ecc_anom =
  arctan2 (sqrt (1 - ecc ^ 2) * sin ecc_anom) (cos ecc_anom - ecc).
Proof.
  intros He. pose proof (e_cos_e_pos ecc ecc_anom He) as Hk.
  unfold true_anomaly. cbv zeta.
  rewrite <- (arctan2_scale (1 - ecc * cos ecc_anom)
                (sqrt (1 - ecc ^ 2) * sin ecc_anom) (cos ecc_anom - ecc) Hk).
  f_equal. field. lra.
Qed.

Lemma true_anomaly_atan2_witness :
  0 <= 1 / 100 < 1
  /\ true_anomaly (1 / 100) 2 =
     arctan2 (sqrt (1 - (1 / 100) ^ 2) * sin 2) (cos 2 - 1 / 100).
Proof.
  assert (H : 0 <= 1 / 100 < 1) by lra.
  split; [exact H|]. apply (true_anomaly_atan2 (1 / 100) 2 H).
Defined.

Lemma gpsweek_diff_spec (gps_week : Z) (eph : Eph.t) :
  gpsweek_diff gps_week eph =
  604800 * (IZR (gps_week mod 1024) - IZR (Eph.gps_week eph mod 1024)).
Proof.
  unfold gpsweek_diff. rewrite minus_IZR. ring.
Qed.

(** The elapsed time of the code is the rollover-adjusted quantity of the
    specification. *)
Lemma delta_t_elapsed (gps_week : Z) (gps_tow : R) (eph : Eph.t) :
  delta_t gps_week gps_tow eph = elapsed gps_week gps_tow eph.
Proof.
  unfold delta_t, elapsed. now rewrite gpsweek_diff_spec.
Qed.

(** C5, as the code has it. The longitude of the ascending node is
    [Omega_0], minus Earth's rotation rate times the seconds since the
    start of the reference week ([gps_tow] plus the rollover term; the
    time of ephemeris is not subtracted there), plus [OmegaDot] times the
    rollover-adjusted elapsed time [gps_tow - t_oe + 604800 (week mod 1024
    - ephemeris week mod 1024)]. *)
Theorem node_longitude_since_week_start (gps_week : Z) (gps_tow : R) (eph : Eph.t) :
  node_longitude gps_week gps_tow eph =
  Eph.Omega_0 eph
  - OMEGA_E_DOT * since_week_start gps_week gps_tow eph
  + Eph.OmegaDot eph * elapsed gps_week gps_tow eph.
Proof.
  unfold node_longitude. cbv zeta. rewrite delta_t_elapsed, gpsweek_diff_spec.
  reflexivity.
Qed.

(** The two readings differ by Earth's rotation over [t_oe]. *)
Lemma node_longitude_vs_spec (gps_week : Z) (gps_tow : R) (eph : Eph.t) :
  node_longitude gps_week gps_tow eph =
  spec_node_longitude gps_week gps_tow eph - OMEGA_E_DOT * Eph.t_oe eph.
Proof.
  unfold node_longitude. cbv zeta. rewrite delta_t_elapsed, gpsweek_diff_spec.
  unfold spec_node_longitude, elapsed. ring.
Qed.

End Propagation.

(** C5, as the specification words it, fails: for a time of ephemeris of
    two hours, the node longitude of the code is not [Omega_0] minus
    Earth's rotation over the elapsed time plus the rate term. *)
Lemma node_longitude_not_elapsed :
  @node_longitude gps_constants 0 10000 eph_two_hours
  <> @spec_node_longitude gps_constants 0 10000 eph_two_hours.
Proof.
  rewrite node_longitude_vs_spec. simpl. lra.
Qed.

(** ** Simulated satellites *)

Lemma unit_column_norm (row_el row_az : list R) (i : nat) :
  length row_el = length row_az ->
  (i < length row_el)%nat ->
  let el_deg := map deg2rad row_el in
  let az_deg := map deg2rad row_az in
  let x := nth i (map (Rmult 20200000)
                   (map (fun '(az, el) => sin az * cos el) (combine az_deg el_deg))) 0 in
  let y := nth i (map (Rmult 20200000)
                   (map (fun '(az, el) => cos az * cos el) (combine az_deg el_deg))) 0 in
  let z := nth i (map (Rmult 20200000) (map sin el_deg)) 0 in
  x * x + y * y + z * z = 20200000 * 20200000.
Proof.
  revert row_az i. induction row_el as [|el row_el IH]; intros [|az row_az] i Hlen Hi;
    simpl in Hlen, Hi; try lia; try discriminate.
  destruct i as [|i].
  - simpl.
    pose proof (sin2_cos2 (deg2rad az)) as Ha.
    pose proof (sin2_cos2 (deg2rad el)) as He.
    unfold Rsqr in Ha, He.
    set (sa := sin (deg2rad az)) in *. set (ca := cos (deg2rad az)) in *.
    set (se := sin (deg2rad el)) in *. set (ce := cos (deg2rad el)) in *.
    replace (20200000 * (sa * ce) * (20200000 * (sa * ce))
             + 20200000 * (ca * ce) * (20200000 * (ca * ce))
             + 20200000 * se * (20200000 * se))
      with (20200000 * 20200000 * ((sa * sa + ca * ca) * (ce * ce) + se * se)) by ring.
    rewrite Ha. replace (1 * (ce * ce) + se * se) with (se * se + ce * ce) by ring.
    rewrite He. ring.
  - simpl. apply IH; [now injection Hlen | lia].
Qed.

(** C10. For a 2xN array of elevations and azimuths in degrees,
    [svs_from_el_az] returns three rows of N entries, and every column of
    the result has Euclidean norm 20,200,000; an array whose first
    dimension is not two fails the shape assertion. *)
Theorem svs_from_el_az_columns :
  (forall (row_el row_az : list R) (N : nat),
      length row_el = N -> length row_az = N ->
      exists x y z,
        svs_from_el_az [row_el; row_az] = Return [x; y; z]
        /\ length x = N /\ length y = N /\ length z = N
        /\ forall i, (i < N)%nat -> column_norm [x; y; z] i = 20200000)
  /\ (forall elaz_deg : list (list R),
        length elaz_deg <> 2%nat ->
        svs_from_el_az elaz_deg = Raise (AssertionError "elaz_deg should be a 2xN array")).
Proof.
  split.
  - intros row_el row_az N Hel Haz.
    eexists. eexists. eexists. split; [reflexivity|].
    repeat split.
    + now rewrite !length_map, length_combine, !length_map, Hel, Haz, Nat.min_id.
    + now rewrite !length_map, length_combine, !length_map, Hel, Haz, Nat.min_id.
    + now rewrite !length_map.
    + intros i Hi. unfold column_norm. cbn [nth].
      rewrite unit_column_norm by lia.
      apply sqrt_square. lra.
  - intros [|r0 [|r1 [|r2 rest]]] Hlen; simpl in Hlen; try reflexivity.
    exfalso. now apply Hlen.
Qed.

Lemma svs_from_el_az_columns_witness :
  (exists x y z,
      svs_from_el_az [[0; 45; 90]; [0; 180; 360]] = Return [x; y; z]
      /\ length x = 3%nat /\ length y = 3%nat /\ length z = 3%nat
      /\ forall i, (i < 3)%nat -> column_norm [x; y; z] i = 20200000)
  /\ svs_from_el_az [[0; 45; 90]] = Raise (AssertionError "elaz_deg should be a 2xN array").
Proof.
  destruct svs_from_el_az_columns as [Hshape Hassert]. split.
  - apply (Hshape [0; 45; 90] [0; 180; 360] 3%nat); reflexivity.
  - apply (Hassert [[0; 45; 90]]). simpl. lia.
Defined.

(** ** The receiver position *)

Lemma reshape_3_1_refuses (rx_ecef : list R) :
  length rx_ecef <> 3%nat -> reshape_3_1 rx_ecef = Raise ValueError.
Proof.
  destruct rx_ecef as [|x [|y [|z [|w rest]]]]; simpl; intros H;
    try reflexivity. exfalso. now apply H.
Qed.

(** ** Differences and ranges *)

Lemma squeeze_columns (cols : list (R * R * R)) :
  length cols <> 1%nat -> squeeze cols = Columns cols.
Proof. destruct cols as [|p [|q cols]]; simpl; intros H; congruence. Qed.

(** With any number of satellites but one, the differences and the ranges
    are taken satellite by satellite. *)
Lemma find_delxyz_range_returns (sv_posvel : list Sv.t) (rx ry rz : R) :
  length sv_posvel <> 1%nat ->
  _find_delxyz_range sv_posvel [rx; ry; rz] =
  Return (map (fun s => (Sv.x_sv_m s - rx, Sv.y_sv_m s - ry, Sv.z_sv_m s - rz)) sv_posvel,
          map (fun s => sqrt ((Sv.x_sv_m s - rx) * (Sv.x_sv_m s - rx)
                              + (Sv.y_sv_m s - ry) * (Sv.y_sv_m s - ry)
                              + (Sv.z_sv_m s - rz) * (Sv.z_sv_m s - rz))) sv_posvel).
Proof.
  intros H. unfold _find_delxyz_range, _extract_pos_vel_arr.
  cbn [reshape_3_1 bind].
  rewrite squeeze_columns by (unfold positions; now rewrite length_map).
  unfold positions. now rewrite !map_map.
Qed.

(** With a single satellite, each coordinate of the satellite is set
    against the three coordinates of the receiver. *)
Lemma find_delxyz_range_single (s : Sv.t) (rx ry rz : R) :
  _find_delxyz_range [s] [rx; ry; rz] =
  Return ([(Sv.x_sv_m s - rx, Sv.x_sv_m s - ry, Sv.x_sv_m s - rz);
           (Sv.y_sv_m s - rx, Sv.y_sv_m s - ry, Sv.y_sv_m s - rz);
           (Sv.z_sv_m s - rx, Sv.z_sv_m s - ry, Sv.z_sv_m s - rz)],
          [sqrt ((Sv.x_sv_m s - rx) * (Sv.x_sv_m s - rx)
                 + (Sv.x_sv_m s - ry) * (Sv.x_sv_m s - ry)
                 + (Sv.x_sv_m s - rz) * (Sv.x_sv_m s - rz));
           sqrt ((Sv.y_sv_m s - rx) * (Sv.y_sv_m s - rx)
                 + (Sv.y_sv_m s - ry) * (Sv.y_sv_m s - ry)
                 + (Sv.y_sv_m s - rz) * (Sv.y_sv_m s - rz));
           sqrt ((Sv.z_sv_m s - rx) * (Sv.z_sv_m s - rx)
                 + (Sv.z_sv_m s - ry) * (Sv.z_sv_m s - ry)
                 + (Sv.z_sv_m s - rz) * (Sv.z_sv_m s - rz))]).
Proof. reflexivity. Qed.

Lemma find_delxyz_range_lengths (sv_posvel : list Sv.t) (rx_ecef : list R)
    (del_pos : list (R * R * R)) (true_range : list R) :
  _find_delxyz_range sv_posvel rx_ecef = Return (del_pos, true_range) ->
  length del_pos = length true_range
  /\ (length sv_posvel <> 1%nat -> length true_range = length sv_posvel)
  /\ (length sv_posvel = 1%nat -> length true_range = 3%nat).
Proof.
  destruct rx_ecef as [|rx [|ry [|rz [|w rest]]]]; try discriminate.
  destruct sv_posvel as [|s [|s' sv_posvel]].
  - intros [= <- <-]. repeat split; intros; simpl in *; congruence.
  - rewrite find_delxyz_range_single. intros [= <- <-].
    repeat split; intros; simpl in *; congruence.
  - rewrite find_delxyz_range_returns by (simpl; lia). intros [= <- <-].
    repeat split; intros; simpl in *; rewrite ?length_map; congruence.
Qed.

Section Rotation.
Context {K : Constants}.

Lemma broadcast_of_length {A : Type} (n : nat) (xs : list A) :
  length xs = n -> broadcast n (Vector xs) = Return xs.
Proof. intros <-. apply broadcast_same. Qed.

(** Lines 337-340 on a table that has as many columns as there are
    ranges. *)
Lemma rotate_rows_returns (sv_posvel : list Sv.t) (t_corr : list R) :
  length t_corr = length sv_posvel ->
  rotate_rows sv_posvel t_corr =
  Return (map (fun '(s, t) => rotate_state s t) (combine sv_posvel t_corr)).
Proof.
  intros H. unfold rotate_rows. cbv zeta.
  rewrite (elementwise_same_length Rmult) by now rewrite !length_map.
  cbn [bind].
  rewrite (elementwise_same_length Rmult) by now rewrite !length_map.
  cbn [bind].
  rewrite (elementwise_same_length Rplus)
    by (rewrite !length_map, length_combine, !length_map; lia).
  cbn [bind].
  rewrite broadcast_of_length
    by (rewrite length_map, length_combine, !length_map, length_combine, !length_map; lia).
  cbn [bind].
  rewrite (elementwise_same_length Rplus)
    by (rewrite !length_map, length_combine, !length_map; lia).
  cbn [bind].
  rewrite broadcast_of_length
    by (rewrite length_map, length_combine, !length_map, length_combine, !length_map; lia).
  cbn [bind]. f_equal. unfold set_x_y, rotate_state.
  revert t_corr H. induction sv_posvel as [|s sv_posvel IH]; intros [|t t_corr] H;
    simpl in H; try discriminate; [reflexivity|].
  cbn [map combine]. f_equal. apply IH. lia.
Qed.

(** Lines 337-340 on a table of one column: the three ranges give three
    values for each row, which the row of one column cannot take. *)
Lemma rotate_rows_single (s : Sv.t) (t1 t2 t3 : R) :
  rotate_rows [s] [t1; t2; t3] = Raise ValueError.
Proof. reflexivity. Qed.

End Rotation.

(** ** The store *)

Lemma deref_fresh (h : heap) (t : list Sv.t) :
  deref (h ++ [t]) (length h) = Return t.
Proof.
  unfold deref. rewrite nth_error_app2 by lia. now rewrite Nat.sub_diag.
Qed.

Lemma store_fresh (h : heap) (t t' : list Sv.t) :
  store (h ++ [t]) (length h) t' = h ++ [t'].
Proof.
  induction h as [|t0 h IH]; simpl; [reflexivity | now rewrite IH].
Qed.

Lemma store_same (h : heap) (r : ref) (t : list Sv.t) :
  (r < length h)%nat -> nth_error (store h r t) r = Some t.
Proof.
  revert r. induction h as [|t0 h IH]; intros [|r] Hr; simpl in *; try lia.
  - reflexivity.
  - apply IH. lia.
Qed.

Lemma store_other (h : heap) (r r0 : ref) (t : list Sv.t) :
  r0 <> r -> nth_error (store h r t) r0 = nth_error h r0.
Proof.
  revert r r0. induction h as [|t0 h IH]; intros [|r] [|r0] Hne; simpl;
    try reflexivity; try congruence.
  apply IH. congruence.
Qed.

Lemma store_length (h : heap) (r : ref) (t : list Sv.t) :
  length (store h r t) = length h.
Proof.
  revert r. induction h as [|t0 h IH]; intros [|r]; simpl; auto.
Qed.

Lemma deref_in_range (h : heap) (r : ref) (t : list Sv.t) :
  deref h r = Return t -> (r < length h)%nat.
Proof.
  unfold deref. destruct (nth_error h r) eqn:E; [|discriminate].
  intros _. apply nth_error_Some. now rewrite E.
Qed.

(** ** The visibility filter and the range computation *)

Section Visibility.
Context {K : Constants} {X : Collaborators}.

(** Propagation at a single query time ends in one of two ways: a table
    of states, or the convergence exception of the solver. *)
Lemma find_sv_states_outcome (gps_millis : R) (ephem : list Eph.t) :
  (exists sv_posvel, find_sv_states (Scalar gps_millis) (Some ephem) = Return sv_posvel)
  \/ find_sv_states (Scalar gps_millis) (Some ephem) = Raise RuntimeWarning.
Proof.
  unfold find_sv_states. cbn [nd_map broadcast bind].
  set (week := fst (gps_millis_to_tow gps_millis)).
  set (tow := snd (gps_millis_to_tow gps_millis)).
  unfold default_max_iter.
  rewrite (compute_eccentric_anomaly_outcome (Scalar week) (Scalar tow) ephem
             default_tol 9 (repeat week (length ephem)) (repeat tow (length ephem))
             eq_refl eq_refl).
  destruct (existsb _ _); [now right | left].
  cbn [bind]. apply mapM_total. intros [[[w t] eph] ecc_anom].
  destruct (sv_state_returns w t eph ecc_anom) as [s [Hs _]].
  now exists s.
Qed.



(** With precomputed states of any number of satellites but one,
    [_find_sv_location] writes the rotated rows into the table it was
    handed and returns that same table. *)
Lemma find_sv_location_in_place
    (gps_millis : ndarray R) (x y z : R) (ephem : option (list Eph.t))
    (r : ref) (h : heap) (states : list Sv.t) :
  deref h r = Return states ->
  length states <> 1%nat ->
  exists del_pos true_range,
    _find_delxyz_range states [x; y; z] = Return (del_pos, true_range)
    /\ _find_sv_location gps_millis [x; y; z] ephem (Some r) h =
       Return (r, del_pos, true_range,
               store h r (map (fun '(s, t) => rotate_state s t)
                            (combine states (map (fun d => d / C) true_range)))).
Proof.
  intros Hr Hlen. eexists. eexists.
  split; [now apply find_delxyz_range_returns|].
  unfold _find_sv_location. cbn [reshape_3_1 bind]. rewrite Hr. cbn [bind].
  rewrite find_delxyz_range_returns by exact Hlen. cbn [bind].
  rewrite rotate_rows_returns by now rewrite !length_map.
  reflexivity.
Qed.

(** With precomputed states of a single satellite, the assignment of line
    339 is refused and nothing is returned. *)
Lemma find_sv_location_single
    (gps_millis : ndarray R) (x y z : R) (ephem : option (list Eph.t))
    (r : ref) (h : heap) (s : Sv.t) :
  deref h r = Return [s] ->
  _find_sv_location gps_millis [x; y; z] ephem (Some r) h = Raise ValueError.
Proof.
  intros Hr. unfold _find_sv_location. cbn [reshape_3_1 bind]. rewrite Hr. cbn [bind].
  rewrite find_delxyz_range_single. cbn [bind map]. now rewrite rotate_rows_single.
Qed.

End Visibility.






(** ** The caller's states after [_find_sv_location] *)

(** C3 fails on the code. A caller hands [_find_sv_location] a table of
    precomputed states of two satellites; the call returns that very
    table, and the position of the first satellite in it has moved: its
    [x_sv_m] is no longer the 26,560,000 m the caller stored. *)
Theorem find_sv_location_moves_caller_state :
  exists del_pos true_range h' s1' s2',
    @_find_sv_location gps_constants ideal_collaborators
      (Scalar 0) equator_rx None (Some 0%nat) caller_heap
    = Return (0%nat, del_pos, true_range, h')
    /\ deref caller_heap 0%nat = Return [caller_state; far_state]
    /\ deref h' 0%nat = Return [s1'; s2']
    /\ Sv.x_sv_m caller_state < Sv.x_sv_m s1'
    /\ Sv.vx_sv_mps s1' = Sv.vx_sv_mps caller_state.
Proof.
  unfold equator_rx.
  destruct (@find_sv_location_in_place gps_constants ideal_collaborators
              (Scalar 0) 6378137 0 0 None 0%nat caller_heap caller_table eq_refl)
    as [del_pos [true_range [Hrange Hcall]]]; [simpl; lia|].
  rewrite find_delxyz_range_returns in Hrange by (simpl; lia).
  injection Hrange as Hd Ht. subst del_pos true_range.
  eexists. eexists. eexists. eexists. eexists.
  split; [exact Hcall|]. split; [reflexivity|]. split; [reflexivity|].
  split; [|reflexivity].
  cbn [rotate_state Sv.x_sv_m Sv.y_sv_m Sv.z_sv_m caller_state].
  change (@OMEGA_E_DOT gps_constants) with (72921151467 / 1000000000000000).
  change (@C gps_constants) with 299792458.
  assert (Hs : 0 < sqrt ((26560000 - 6378137) * (26560000 - 6378137)
                         + (0 - 0) * (0 - 0) + (0 - 0) * (0 - 0))).
  { apply sqrt_lt_R0. nra. }
  set (d := sqrt _) in *.
  assert (0 < d / 299792458) by (apply Rdiv_lt_0_compat; lra).
  nra.
Qed.

(** ** Dilution of precision *)

Section DopProperties.
Import Dop.

(** A Gram matrix of rank one has no inverse. *)
Lemma det4_rank_one (M : mat) (n : R) (v : nat -> R) :
  (forall i j, M i j = n * v i * v j) -> det4 M = 0.
Proof.
  intros H. unfold det4, det3, minor, skip. simpl. rewrite !H. ring.
Qed.

Lemma gram_nil (i j : nat) : gram [] i j = 0.
Proof. reflexivity. Qed.

Lemma gram_cons (r : vec4) (G : list vec4) (i j : nat) :
  gram (r :: G) i j = entry r i * entry r j + gram G i j.
Proof. reflexivity. Qed.

(** Fewer than four rows cannot span the four unknowns. *)
Lemma gram_singular_few (G : list vec4) :
  (length G < 4)%nat -> det4 (gram G) = 0.
Proof.
  intros Hlen.
  destruct G as [|[[[a0 a1] a2] a3] [|[[[b0 b1] b2] b3] [|[[[c0 c1] c2] c3] [|d G]]]];
    simpl in Hlen; try lia;
    unfold det4, det3, minor, skip; simpl;
    rewrite ?gram_cons, ?gram_nil; simpl; ring.
Qed.

Lemma gram_identical (r : vec4) (G : list vec4) (i j : nat) :
  Forall (fun r' => r' = r) G ->
  gram G i j = INR (length G) * entry r i * entry r j.
Proof.
  induction 1 as [|r' G Hr _ IH].
  - simpl. ring.
  - subst r'. rewrite gram_cons, IH.
    change (length (r :: G)) with (S (length G)). rewrite S_INR. ring.
Qed.

Lemma enut_identical (navdata : list Obs) (el az : R) :
  Forall (fun o => el_sv_deg o = el /\ az_sv_deg o = az) navdata ->
  Forall (fun r' => r' = (cos (deg2rad el) * sin (deg2rad az),
                          cos (deg2rad el) * cos (deg2rad az),
                          sin (deg2rad el), 1))
         (calculate_enut_matrix navdata).
Proof.
  unfold calculate_enut_matrix, calculate_enu_unit_vectors.
  induction 1 as [|o navdata [Hel Haz] _ IH]; simpl; constructor; auto.
  now rewrite Hel, Haz.
Qed.

Lemma linalg_inv_refuses (M : mat) :
  det4 M = 0 -> linalg_inv M = Raise LinAlgError.
Proof.
  intros H. unfold linalg_inv. destruct (Req_dec_T (det4 M) 0); [reflexivity|contradiction].
Qed.

(** Expansion of the determinant along any row, and its vanishing on a
    foreign row. *)
Lemma adjugate_row (M : mat) (i j : nat) :
  (i < 4)%nat -> (j < 4)%nat ->
  M i 0%nat * (cofactor_sign 0 j * det3 (minor M j 0))
  + M i 1%nat * (cofactor_sign 1 j * det3 (minor M j 1))
  + M i 2%nat * (cofactor_sign 2 j * det3 (minor M j 2))
  + M i 3%nat * (cofactor_sign 3 j * det3 (minor M j 3))
  = if Nat.eqb i j then det4 M else 0.
Proof.
  intros Hi Hj.
  destruct i as [|[|[|[|i]]]]; try lia;
    destruct j as [|[|[|[|j]]]]; try lia;
    unfold det4, det3, minor, skip, cofactor_sign; simpl; ring.
Qed.

(** What [linalg_inv] returns is the inverse. *)
Lemma linalg_inv_correct (M D : mat) (i j : nat) :
  linalg_inv M = Return D ->
  (i < 4)%nat -> (j < 4)%nat ->
  M i 0%nat * D 0%nat j + M i 1%nat * D 1%nat j
  + M i 2%nat * D 2%nat j + M i 3%nat * D 3%nat j
  = if Nat.eqb i j then 1 else 0.
Proof.
  unfold linalg_inv. destruct (Req_dec_T (det4 M) 0) as [|Hdet]; [discriminate|].
  intros HD Hi Hj. injection HD as <-.
  pose proof (adjugate_row M i j Hi Hj) as Hadj.
  set (d := det4 M) in *.
  apply (Rmult_eq_reg_r d); [|exact Hdet].
  transitivity (M i 0%nat * (cofactor_sign 0 j * det3 (minor M j 0))
                + M i 1%nat * (cofactor_sign 1 j * det3 (minor M j 1))
                + M i 2%nat * (cofactor_sign 2 j * det3 (minor M j 2))
                + M i 3%nat * (cofactor_sign 3 j * det3 (minor M j 3))).
  - field. exact Hdet.
  - rewrite Hadj. destruct (Nat.eqb i j); ring.
Qed.

(** [calculate_dop] has no failing outcome. *)
Lemma calculate_dop_total (navdata : list Obs) :
  exists d, calculate_dop navdata = Return d.
Proof.
  unfold calculate_dop, linalg_inv.
  destruct (Req_dec_T _ 0); eexists; reflexivity.
Qed.

Lemma calculate_dop_singular (navdata : list Obs) :
  det4 (gram (calculate_enut_matrix navdata)) = 0 ->
  exists d, calculate_dop navdata = Return d /\ all_nan d.
Proof.
  intros H. unfold calculate_dop. rewrite (linalg_inv_refuses _ H).
  eexists. split; [reflexivity|].
  unfold all_nan, is_nan. cbn.
  repeat split; repeat constructor.
Qed.

(** C2. For the satellites of one epoch, when there are fewer than four
    of them, or the Gram matrix of the design matrix is singular, or all
    of them share one elevation and one azimuth, [calculate_dop] returns
    (it does not raise), and in what it returns every entry of the 4x4 DOP
    matrix and each of GDOP, HDOP, VDOP, PDOP and TDOP is the not-a-number
    value. *)
Theorem calculate_dop_nan (navdata : list Obs) :
  ((length navdata < 4)%nat
   \/ det4 (gram (calculate_enut_matrix navdata)) = 0
   \/ exists el az, Forall (fun o => el_sv_deg o = el /\ az_sv_deg o = az) navdata) ->
  exists d, calculate_dop navdata = Return d /\ all_nan d.
Proof.
  intros H. apply calculate_dop_singular.
  destruct H as [Hfew | [Hsing | [el [az Hsame]]]].
  - apply gram_singular_few.
    unfold calculate_enut_matrix, calculate_enu_unit_vectors.
    now rewrite !length_map.
  - exact Hsing.
  - apply (det4_rank_one _ (INR (length (calculate_enut_matrix navdata)))
             (entry (cos (deg2rad el) * sin (deg2rad az),
                     cos (deg2rad el) * cos (deg2rad az),
                     sin (deg2rad el), 1))).
    intros i j. apply gram_identical. now apply enut_identical.
Qed.

Lemma calculate_dop_nan_witness :
  (exists d, calculate_dop singularity_sat_scenario = Return d /\ all_nan d)
  /\ (exists d, calculate_dop too_few_sat_scenario = Return d /\ all_nan d).
Proof.
  split.
  - apply (calculate_dop_nan singularity_sat_scenario).
    right. right. exists 30, 90. repeat constructor.
  - apply (calculate_dop_nan too_few_sat_scenario).
    left. simpl. lia.
Defined.

(** C8. Whatever the flags of the caller's selection, [get_dop] returns
    its table and leaves the store of selections as it found it: the
    caller's selection is the same before and after the call. *)
Theorem get_dop_keeps_selection
    (navdata : list Obs) (which_dop : nat) (flags : Selection) (st : sel_store) :
  nth_error st which_dop = Some flags ->
  (exists rows, fst (get_dop navdata which_dop st) = Return rows)
  /\ snd (get_dop navdata which_dop st) = st
  /\ nth_error (snd (get_dop navdata which_dop st)) which_dop = Some flags.
Proof.
  intros H. unfold get_dop. rewrite H. cbn [fst snd].
  split; [|split; [reflexivity|exact H]].
  apply mapM_total. intros t.
  destruct (calculate_dop_total (filter (fun o => Z.eqb (gps_millis o) t) navdata))
    as [d Hd].
  rewrite Hd. eexists. reflexivity.
Qed.

Lemma get_dop_keeps_selection_witness :
  (exists rows, fst (get_dop singularity_sat_scenario 0 [all_but_matrix]) = Return rows)
  /\ snd (get_dop singularity_sat_scenario 0 [all_but_matrix]) = [all_but_matrix]
  /\ nth_error (snd (get_dop singularity_sat_scenario 0 [all_but_matrix])) 0
     = Some all_but_matrix.
Proof.
  apply (get_dop_keeps_selection singularity_sat_scenario 0 all_but_matrix
           [all_but_matrix]).
  reflexivity.
Defined.

End DopProperties.

(** * Further properties of the satellite model *)

(** ** Geometry of the differences and ranges *)

Lemma Rmult_integral_same (a : R) : a * a = 0 -> a = 0.
Proof.
  intros H. destruct (Rmult_integral a a H); assumption.
Qed.

Lemma sum_squares_zero (a b c : R) :
  a * a + b * b + c * c = 0 <-> a = 0 /\ b = 0 /\ c = 0.
Proof.
  split.
  - intros H.
    pose proof (Rle_0_sqr a) as Ha. pose proof (Rle_0_sqr b) as Hb.
    pose proof (Rle_0_sqr c) as Hc. unfold Rsqr in *.
    repeat split; apply Rmult_integral_same; lra.
  - intros [-> [-> ->]]. ring.
Qed.

(** X1.  For a receiver position of three components and a table of two
    or more satellites, [_find_delxyz_range] returns one difference
    vector and one range per satellite; each range is non-negative, its
    square is the sum of the squares of the three differences, and it is
    zero exactly for a satellite at the receiver.  For a table of a single
    satellite it returns three columns and three ranges instead: column
    [j] sets coordinate [j] of the satellite against each of the three
    coordinates of the receiver.  Any receiver position that does not
    have three components is refused with [ValueError] by the reshape, so
    the [raise] of line 365 is never reached. *)
Theorem find_delxyz_range_geometry :
  (forall (sv_posvel : list Sv.t) (rx ry rz : R),
      (2 <= length sv_posvel)%nat ->
      exists del_pos true_range,
        _find_delxyz_range sv_posvel [rx; ry; rz] = Return (del_pos, true_range)
        /\ length del_pos = length sv_posvel
        /\ length true_range = length sv_posvel
        /\ forall i s,
             nth_error sv_posvel i = Some s ->
             exists d,
               nth_error true_range i = Some d
               /\ nth_error del_pos i =
                  Some (Sv.x_sv_m s - rx, Sv.y_sv_m s - ry, Sv.z_sv_m s - rz)
               /\ 0 <= d
               /\ d * d = (Sv.x_sv_m s - rx) * (Sv.x_sv_m s - rx)
                          + (Sv.y_sv_m s - ry) * (Sv.y_sv_m s - ry)
                          + (Sv.z_sv_m s - rz) * (Sv.z_sv_m s - rz)
               /\ (d = 0 <-> Sv.x_sv_m s = rx /\ Sv.y_sv_m s = ry /\ Sv.z_sv_m s = rz))
  /\ (forall (s : Sv.t) (rx ry rz : R),
        let column := fun p => (p - rx, p - ry, p - rz) in
        let norm := fun p => sqrt ((p - rx) * (p - rx) + (p - ry) * (p - ry)
                                   + (p - rz) * (p - rz)) in
        _find_delxyz_range [s] [rx; ry; rz] =
        Return ([column (Sv.x_sv_m s); column (Sv.y_sv_m s); column (Sv.z_sv_m s)],
                [norm (Sv.x_sv_m s); norm (Sv.y_sv_m s); norm (Sv.z_sv_m s)]))
  /\ (forall (sv_posvel : list Sv.t) (rx_ecef : list R),
        length rx_ecef <> 3%nat ->
        _find_delxyz_range sv_posvel rx_ecef = Raise ValueError).
Proof.
  split; [|split].
  - intros sv_posvel rx ry rz Hlen. eexists. eexists.
    split; [apply find_delxyz_range_returns; lia|].
    split; [apply length_map|]. split; [apply length_map|].
    intros i s Hs.
    set (q := (Sv.x_sv_m s - rx) * (Sv.x_sv_m s - rx)
              + (Sv.y_sv_m s - ry) * (Sv.y_sv_m s - ry)
              + (Sv.z_sv_m s - rz) * (Sv.z_sv_m s - rz)).
    assert (Hq : 0 <= q).
    { unfold q. repeat apply Rplus_le_le_0_compat; apply Rle_0_sqr. }
    exists (sqrt q). rewrite !nth_error_map, Hs. cbn [option_map].
    split; [reflexivity|]. split; [reflexivity|].
    split; [apply sqrt_pos|]. split; [now apply sqrt_sqrt|].
    split.
    + intros H0. apply sqrt_eq_0 in H0; [|exact Hq].
      apply sum_squares_zero in H0. destruct H0 as [Hx [Hy Hz]].
      repeat split; lra.
    + intros [Hx [Hy Hz]]. replace q with 0; [apply sqrt_0|].
      unfold q. rewrite Hx, Hy, Hz. ring.
  - intros s rx ry rz. apply find_delxyz_range_single.
  - intros sv_posvel rx_ecef H. unfold _find_delxyz_range.
    now rewrite (reshape_3_1_refuses rx_ecef H).
Qed.

Lemma find_delxyz_range_geometry_witness :
  (exists del_pos true_range,
      _find_delxyz_range caller_table [6378137; 0; 0] = Return (del_pos, true_range)
      /\ length del_pos = 2%nat
      /\ length true_range = 2%nat)
  /\ _find_delxyz_range caller_table [6378137; 0] = Raise ValueError.
Proof.
  destruct find_delxyz_range_geometry as [Hgeo [_ Hbad]]. split.
  - destruct (Hgeo caller_table 6378137 0 0)
      as [del_pos [true_range [Hcall [Hd [Ht _]]]]]; [simpl; lia|].
    exists del_pos, true_range. auto.
  - apply (Hbad caller_table [6378137; 0]). simpl. lia.
Defined.

(** ** The table that [_find_sv_location] returns *)

Section Location.
Context {K : Constants} {X : Collaborators}.

(** X2.  [_find_sv_location] checks the receiver position before anything
    else: a position that does not have three components raises
    [ValueError] whatever the other arguments are; with a well-formed
    position and neither ephemeris nor satellite states, the assertion of
    line 323 fails. *)
Theorem find_sv_location_errors :
  (forall (gps_millis : ndarray R) (rx_ecef : list R) (ephem : option (list Eph.t))
          (sv_posvel : option ref) (h : heap),
      length rx_ecef <> 3%nat ->
      _find_sv_location gps_millis rx_ecef ephem sv_posvel h = Raise ValueError)
  /\ (forall (gps_millis : ndarray R) (x y z : R) (h : heap),
        _find_sv_location gps_millis [x; y; z] None None h =
        Raise (AssertionError
                 "Must provide ephemeris or positions to find satellites states")).
Proof.
  split.
  - intros gps_millis rx_ecef ephem sv_posvel h H. unfold _find_sv_location.
    now rewrite (reshape_3_1_refuses rx_ecef H).
  - reflexivity.
Qed.

(** X3.  Without precomputed states, [_find_sv_location] either raises or
    returns a table of its own: the reference it returns is new, and every
    table that was in the store before the call is still there, unchanged
    and at the same place. *)
Theorem find_sv_location_fresh_table
    (gps_millis : ndarray R) (rx_ecef : list R) (ephem : option (list Eph.t))
    (h : heap) :
  raises (_find_sv_location gps_millis rx_ecef ephem None h)
  \/ exists del_pos true_range states,
       _find_sv_location gps_millis rx_ecef ephem None h =
       Return (length h, del_pos, true_range, h ++ [states])
       /\ length del_pos = length states
       /\ length true_range = length states.
Proof.
  unfold _find_sv_location.
  destruct rx_ecef as [|x [|y [|z [|w rest]]]]; try (left; now exists ValueError).
  cbn [reshape_3_1 bind].
  destruct ephem as [ephem|]; [|left; now eexists].
  destruct (find_sv_states (nd_map (fun t => t - 1000 * T_TRANS) gps_millis) (Some ephem))
    as [states1 | e1]; [|left; now exists e1].
  cbn [bind].
  destruct (_find_delxyz_range states1 [x; y; z]) as [[del1 range1] | e1];
    [|left; now exists e1].
  cbn [bind].
  destruct (elementwise _ (entries gps_millis) _) as [millis | e2];
    [|left; now exists e2].
  cbn [bind].
  destruct (find_sv_states (Vector millis) (Some ephem)) as [states2 | e3];
    [|left; now exists e3].
  cbn [bind alloc]. rewrite deref_fresh. cbn [bind].
  destruct (Nat.eq_dec (length states2) 1) as [Hone | Hmore].
  - destruct states2 as [|s [|s' states2]]; try discriminate. left.
    rewrite find_delxyz_range_single. cbn [bind map]. rewrite rotate_rows_single.
    now exists ValueError.
  - right. rewrite find_delxyz_range_returns by exact Hmore. cbn [bind].
    rewrite rotate_rows_returns by now rewrite !length_map.
    cbn [bind]. rewrite store_fresh.
    eexists. eexists. eexists. split; [reflexivity|].
    rewrite !length_map, length_combine, !length_map, Nat.min_id. split; reflexivity.
Qed.

Lemma nth_error_combine {A B : Type} (l1 : list A) (l2 : list B) (i : nat) (a : A) (b : B) :
  nth_error l1 i = Some a -> nth_error l2 i = Some b ->
  nth_error (combine l1 l2) i = Some (a, b).
Proof.
  revert l2 i. induction l1 as [|a1 l1 IH]; intros [|b1 l2] [|i] H1 H2;
    simpl in *; try discriminate.
  - now injection H1 as ->; injection H2 as ->.
  - now apply IH.
Qed.

(** X4.  With precomputed states of two or more satellites,
    [_find_sv_location] works on the caller's table: it returns the
    reference it was given, and in that table every satellite has its
    [x_sv_m] and [y_sv_m] multiplied by [1 + OMEGA_E_DOT * range / C],
    while [z_sv_m], the velocities, the identifier and the time are kept,
    and no other table of the store is touched.  The differences and
    ranges it returns are those of the positions before this correction.
    With precomputed states of a single satellite the call raises
    [ValueError] at the assignment of line 339 and returns nothing. *)
Theorem find_sv_location_given_states
    (gps_millis : ndarray R) (x y z : R) (ephem : option (list Eph.t))
    (r : ref) (h : heap) (states : list Sv.t) :
  deref h r = Return states ->
  (length states = 1%nat ->
   _find_sv_location gps_millis [x; y; z] ephem (Some r) h = Raise ValueError)
  /\ ((2 <= length states)%nat ->
      exists del_pos true_range states',
        _find_delxyz_range states [x; y; z] = Return (del_pos, true_range)
        /\ _find_sv_location gps_millis [x; y; z] ephem (Some r) h =
           Return (r, del_pos, true_range, store h r states')
        /\ nth_error (store h r states') r = Some states'
        /\ (forall r0, r0 <> r -> nth_error (store h r states') r0 = nth_error h r0)
        /\ length states' = length states
        /\ forall i s rho,
             nth_error states i = Some s ->
             nth_error true_range i = Some rho ->
             exists s',
               nth_error states' i = Some s'
               /\ Sv.x_sv_m s' = Sv.x_sv_m s * (1 + OMEGA_E_DOT * (rho / C))
               /\ Sv.y_sv_m s' = Sv.y_sv_m s * (1 + OMEGA_E_DOT * (rho / C))
               /\ Sv.z_sv_m s' = Sv.z_sv_m s
               /\ Sv.vx_sv_mps s' = Sv.vx_sv_mps s
               /\ Sv.vy_sv_mps s' = Sv.vy_sv_mps s
               /\ Sv.vz_sv_mps s' = Sv.vz_sv_mps s
               /\ Sv.sv_id s' = Sv.sv_id s
               /\ Sv.times s' = Sv.times s).
Proof.
  intros Hr. split.
  - intros Hone. destruct states as [|s [|s' states]]; try discriminate.
    now apply (find_sv_location_single gps_millis x y z ephem r h s).
  - intros Hlen.
    assert (Hmore : length states <> 1%nat) by lia.
    destruct (find_sv_location_in_place gps_millis x y z ephem r h states Hr Hmore)
      as [del_pos [true_range [Hrange Hcall]]].
    exists del_pos, true_range,
      (map (fun '(s, t) => rotate_state s t)
         (combine states (map (fun d => d / C) true_range))).
    split; [exact Hrange|]. split; [exact Hcall|].
    split; [apply store_same; now apply (deref_in_range h r states)|].
    split; [intros r0 Hr0; now apply store_other|].
    rewrite find_delxyz_range_returns in Hrange by exact Hmore.
    injection Hrange as _ Ht.
    split.
    + rewrite length_map, length_combine, length_map, <- Ht, length_map.
      apply Nat.min_id.
    + intros i s rho Hs Hrho.
      rewrite nth_error_map.
      rewrite (nth_error_combine states (map (fun d => d / C) true_range) i s (rho / C) Hs)
        by (now rewrite nth_error_map, Hrho).
      cbn [option_map]. eexists. split; [reflexivity|]. cbn.
      repeat split; ring.
Qed.

End Location.

Lemma find_sv_location_errors_witness :
  @_find_sv_location gps_constants ideal_collaborators
    (Scalar 0) [6378137; 0] (Some circular_ephem) None [] = Raise ValueError
  /\ @_find_sv_location gps_constants ideal_collaborators
       (Scalar 0) [6378137; 0; 0] None None [] =
     Raise (AssertionError
              "Must provide ephemeris or positions to find satellites states").
Proof.
  destruct (@find_sv_location_errors gps_constants ideal_collaborators) as [Hrx Habsent].
  split.
  - apply Hrx. simpl. lia.
  - apply Habsent.
Defined.

Lemma find_sv_location_given_states_witness :
  @_find_sv_location gps_constants ideal_collaborators
    (Scalar 0) [6378137; 0; 0] None (Some 0%nat) single_heap = Raise ValueError
  /\ exists del_pos true_range states',
       _find_delxyz_range caller_table [6378137; 0; 0] = Return (del_pos, true_range)
       /\ @_find_sv_location gps_constants ideal_collaborators
            (Scalar 0) [6378137; 0; 0] None (Some 0%nat) caller_heap =
          Return (0%nat, del_pos, true_range, store caller_heap 0%nat states')
       /\ nth_error (store caller_heap 0%nat states') 0%nat = Some states'
       /\ length states' = 2%nat.
Proof.
  split.
  - apply (@find_sv_location_given_states gps_constants ideal_collaborators
             (Scalar 0) 6378137 0 0 None 0%nat single_heap [caller_state] eq_refl).
    reflexivity.
  - destruct (@find_sv_location_given_states gps_constants ideal_collaborators
                (Scalar 0) 6378137 0 0 None 0%nat caller_heap caller_table eq_refl)
      as [_ Hmany].
    destruct Hmany as [del_pos [true_range [states' [H1 [H2 [H3 [_ [H5 _]]]]]]]];
      [simpl; lia|].
    exists del_pos, true_range, states'. auto.
Defined.

(** ** Propagated states *)

Lemma rotation_norm (xp yp co so ci si : R) :
  co * co + so * so = 1 -> ci * ci + si * si = 1 ->
  (xp * co - yp * ci * so) * (xp * co - yp * ci * so)
  + (xp * so + yp * ci * co) * (xp * so + yp * ci * co)
  + yp * si * (yp * si)
  = xp * xp + yp * yp.
Proof.
  intros Ho Hi.
  transitivity (xp * xp * (co * co + so * so)
                + yp * yp * (ci * ci * (co * co + so * so) + si * si)); [ring|].
  rewrite Ho, !Rmult_1_r, Hi. ring.
Qed.

Lemma cos2_sin2 (x : R) : cos x * cos x + sin x * sin x = 1.
Proof.
  pose proof (sin2_cos2 x) as H. unfold Rsqr in H. lra.
Qed.

Section States.
Context {K : Constants}.

(** X5.  The rotation of lines 202-204 keeps lengths: the ECEF position that
    [find_sv_states] gives a satellite lies at the corrected orbital
    radius from the centre of the Earth, whatever the node longitude and
    the inclination are. *)
Theorem sv_state_at_orbital_radius
    (gps_week : Z) (gps_tow : R) (eph : Eph.t) (ecc_anom : R) :
  exists s,
    sv_state gps_week gps_tow eph ecc_anom = Return s
    /\ Sv.x_sv_m s * Sv.x_sv_m s + Sv.y_sv_m s * Sv.y_sv_m s + Sv.z_sv_m s * Sv.z_sv_m s
       = orb_radius eph ecc_anom * orb_radius eph ecc_anom.
Proof.
  unfold sv_state. cbv zeta.
  pose proof (phi_loop_trig (true_anomaly (Eph.e eph) ecc_anom + Eph.omega eph)
                (Eph.C_uc eph) (Eph.C_us eph)) as Htrig.
  destruct (phi_loop _ _ _) as [phi trig]. cbn [snd] in Htrig. subst trig.
  eexists. split; [reflexivity|]. cbn [Sv.x_sv_m Sv.y_sv_m Sv.z_sv_m].
  fold (orb_radius eph ecc_anom).
  rewrite rotation_norm by apply cos2_sin2.
  transitivity (orb_radius eph ecc_anom * orb_radius eph ecc_anom
                * (cos phi * cos phi + sin phi * sin phi)); [ring|].
  rewrite cos2_sin2. ring.
Qed.

Lemma gpsweek_diff_rollover (k gps_week : Z) (eph : Eph.t) :
  gpsweek_diff (gps_week + 1024 * k) eph = gpsweek_diff gps_week eph.
Proof.
  unfold gpsweek_diff. rewrite (Z.mul_comm 1024 k), Z_mod_plus_full. reflexivity.
Qed.

Lemma mean_anom_rollover (k gps_week : Z) (gps_tow : R) (eph : Eph.t) :
  mean_anom (gps_week + 1024 * k) gps_tow eph = mean_anom gps_week gps_tow eph.
Proof.
  unfold mean_anom, delta_t. now rewrite gpsweek_diff_rollover.
Qed.

Lemma kepler_cols_rollover (k gps_week : Z) (n : nat) (tows : list R) (ephem : list Eph.t) :
  kepler_cols (repeat (gps_week + 1024 * k)%Z n) tows ephem =
  kepler_cols (repeat gps_week n) tows ephem.
Proof.
  unfold kepler_cols. revert tows ephem.
  induction n as [|n IH]; intros [|tow tows] [|eph ephem];
    cbn [repeat combine map]; try reflexivity.
  now rewrite IH, mean_anom_rollover.
Qed.

(** X6.  Query weeks that differ by a multiple of 1024 are not told apart: the
    elapsed time, the eccentric anomalies (or the exception) of the
    solver and the state of every satellite are the same for week
    [w + 1024 k] as for week [w]. *)
Theorem week_rollover_invisible (k gps_week : Z) :
  (forall (gps_tow : R) (eph : Eph.t),
      delta_t (gps_week + 1024 * k) gps_tow eph = delta_t gps_week gps_tow eph)
  /\ (forall (gps_tow : ndarray R) (ephem : list Eph.t) (tol : R) (max_iter : nat),
        _compute_eccentric_anomaly (Scalar (gps_week + 1024 * k)%Z) gps_tow ephem tol max_iter
        = _compute_eccentric_anomaly (Scalar gps_week) gps_tow ephem tol max_iter)
  /\ (forall (gps_tow : R) (eph : Eph.t) (ecc_anom : R),
        sv_state (gps_week + 1024 * k) gps_tow eph ecc_anom
        = sv_state gps_week gps_tow eph ecc_anom).
Proof.
  split; [|split].
  - intros gps_tow eph. unfold delta_t. now rewrite gpsweek_diff_rollover.
  - intros gps_tow ephem tol max_iter.
    unfold _compute_eccentric_anomaly, solver_operands.
    cbn [entries length]. rewrite !common_length_1_l. cbn [bind].
    destruct (common_length (length (entries gps_tow)) (length ephem)) as [m | e];
      [|reflexivity].
    cbn [bind].
    destruct (common_length m (length ephem)) as [n | e]; [|reflexivity].
    cbn [bind stretch]. now rewrite kepler_cols_rollover.
  - intros gps_tow eph ecc_anom. unfold sv_state, node_longitude, delta_t.
    now rewrite gpsweek_diff_rollover.
Qed.

Lemma kepler_cols_in (weeks : list Z) (tows : list R) (ephem : list Eph.t) (M e : R) :
  In (M, e) (kepler_cols weeks tows ephem) -> exists eph, In eph ephem /\ e = Eph.e eph.
Proof.
  unfold kepler_cols. intros Hin. apply in_map_iff in Hin.
  destruct Hin as [[[week tow] eph] [Heq Hin]]. injection Heq as _ <-.
  exists eph. split; [|reflexivity]. now apply in_combine_r in Hin.
Qed.

Lemma newton_raphson_circular (M : R) (n : nat) : newton_raphson M 0 n = M.
Proof.
  induction n as [|n IH]; [reflexivity|].
  change (newton_raphson M 0 (S n))
    with (newton_raphson M 0 n
          - kepler_f M 0 (newton_raphson M 0 n) / kepler_f' 0 (newton_raphson M 0 n)).
  rewrite IH. unfold kepler_f, kepler_f'. field.
Qed.

Lemma circular_converges
    (gps_week : ndarray Z) (gps_tow : ndarray R) (ephem : list Eph.t)
    (tol : R) (n : nat) (weeks : list Z) (tows : list R) :
  broadcast (length ephem) gps_week = Return weeks ->
  broadcast (length ephem) gps_tow = Return tows ->
  Forall (fun eph => Eph.e eph = 0) ephem ->
  0 <= tol ->
  _compute_eccentric_anomaly gps_week gps_tow ephem tol (S n) =
  Return (map fst (kepler_cols weeks tows ephem)).
Proof.
  intros Hw Ht Hcirc Htol.
  assert (He : forall M e, In (M, e) (kepler_cols weeks tows ephem) -> e = 0).
  { intros M e Hin. destruct (kepler_cols_in _ _ _ _ _ Hin) as [eph [Heph ->]].
    rewrite Forall_forall in Hcirc. now apply Hcirc. }
  rewrite (compute_eccentric_anomaly_returns gps_week gps_tow ephem tol n weeks tows Hw Ht).
  - f_equal. apply map_ext_in. intros [M e] Hin. rewrite (He M e Hin).
    apply newton_raphson_circular.
  - intros d Hd. unfold last_corrections in Hd. rewrite newton_loop_delta in Hd.
    apply in_map_iff in Hd. destruct Hd as [[M e] [Hd Hin]].
    rewrite (He M e Hin), newton_raphson_circular in Hd.
    unfold kepler_f, kepler_f' in Hd.
    replace d with 0; [exact Htol|]. rewrite <- Hd. field.
Qed.

(** X7.  On circular orbits the solver converges at once: when every
    eccentricity is zero, it returns the corrected mean anomalies
    themselves, for any number of passes of at least one and any
    tolerance that is not negative. *)
Theorem compute_eccentric_anomaly_circular
    (gps_week : ndarray Z) (gps_tow : ndarray R) (ephem : list Eph.t)
    (tol : R) (n : nat) (weeks : list Z) (tows : list R) :
  broadcast (length ephem) gps_week = Return weeks ->
  broadcast (length ephem) gps_tow = Return tows ->
  Forall (fun eph => Eph.e eph = 0) ephem ->
  0 <= tol ->
  _compute_eccentric_anomaly gps_week gps_tow ephem tol (S n) =
  Return (map fst (kepler_cols weeks tows ephem)).
Proof.
  exact (circular_converges gps_week gps_tow ephem tol n weeks tows).
Qed.

(** X8.  The test of line 423 is one-sided: the solver returns the last
    iterate as soon as no correction of the last pass is greater than the
    tolerance, however far below minus the tolerance some of them are. *)
Theorem convergence_test_one_sided
    (gps_week : ndarray Z) (gps_tow : ndarray R) (ephem : list Eph.t)
    (tol : R) (n : nat) (weeks : list Z) (tows : list R) :
  broadcast (length ephem) gps_week = Return weeks ->
  broadcast (length ephem) gps_tow = Return tows ->
  (forall d, In d (last_corrections (kepler_cols weeks tows ephem) (S n)) -> d <= tol) ->
  _compute_eccentric_anomaly gps_week gps_tow ephem tol (S n) =
  Return (map (fun '(M, e) => newton_raphson M e (S n)) (kepler_cols weeks tows ephem)).
Proof.
  intros Hw Ht Hall.
  exact (compute_eccentric_anomaly_returns gps_week gps_tow ephem tol n weeks tows Hw Ht Hall).
Qed.

End States.

Lemma fst_combine {A B : Type} (l1 : list A) (l2 : list B) :
  (length l1 <= length l2)%nat -> map fst (combine l1 l2) = l1.
Proof.
  revert l2. induction l1 as [|a l1 IH]; intros [|b l2] H; simpl in *;
    try reflexivity; try lia.
  rewrite IH; [reflexivity | lia].
Qed.

Lemma snd_combine {A B : Type} (l1 : list A) (l2 : list B) :
  (length l2 <= length l1)%nat -> map snd (combine l1 l2) = l2.
Proof.
  revert l2. induction l1 as [|a l1 IH]; intros [|b l2] H; simpl in *;
    try reflexivity; try lia.
  rewrite IH; [reflexivity | lia].
Qed.

Lemma broadcast_length {A : Type} (n : nat) (t : ndarray A) (l : list A) :
  broadcast n t = Return l -> length l = n.
Proof.
  destruct t as [a | xs]; cbn [broadcast].
  - intros H. injection H as <-. apply repeat_length.
  - destruct (Nat.eqb (length xs) 1) eqn:E1.
    + intros [= <-]. destruct xs as [|x [|y xs]]; try discriminate. apply repeat_length.
    + destruct (Nat.eqb (length xs) n) eqn:E; [|discriminate].
      intros H. injection H as <-. now apply Nat.eqb_eq.
Qed.

Lemma broadcast_nd_map {A B : Type} (f : A -> B) (n : nat) (t : ndarray A) (l : list A) :
  broadcast n t = Return l -> broadcast n (nd_map f t) = Return (map f l).
Proof.
  destruct t as [a | xs]; cbn [broadcast nd_map].
  - intros H. injection H as <-. now rewrite map_repeat.
  - rewrite length_map. destruct (Nat.eqb (length xs) 1) eqn:E1.
    + intros [= <-]. destruct xs as [|x [|y xs]]; try discriminate.
      cbn [map stretch]. now rewrite map_repeat.
    + destruct (Nat.eqb (length xs) n); [|discriminate].
      intros H. now injection H as <-.
Qed.

Section Tables.
Context {K : Constants} {X : Collaborators}.

Lemma kepler_cols_length (weeks : list Z) (tows : list R) (ephem : list Eph.t) :
  length weeks = length ephem -> length tows = length ephem ->
  length (kepler_cols weeks tows ephem) = length ephem.
Proof.
  intros Hw Ht. unfold kepler_cols.
  rewrite length_map, !length_combine. lia.
Qed.

Lemma mapM_sv_state (cols : list (Z * R * Eph.t * R)) :
  exists states,
    mapM (fun '(week, tow, eph, ecc_anom) => sv_state week tow eph ecc_anom) cols
    = Return states
    /\ map Sv.sv_id states = map (fun c => Eph.sv_id (snd (fst c))) cols
    /\ map Sv.times states = map (fun c => snd (fst (fst c))) cols.
Proof.
  induction cols as [|[[[week tow] eph] ecc_anom] cols [states [IH [Hid Htime]]]].
  - exists []. auto.
  - destruct (sv_state_returns week tow eph ecc_anom) as [s [Hs [Hsid Hst]]].
    exists (s :: states). cbn [mapM]. rewrite Hs. cbn [bind]. rewrite IH. cbn [bind map].
    now rewrite Hid, Htime, Hsid, Hst.
Qed.

(** What the table of states holds when the solver returned [ecc_anom]. *)
Lemma states_of_anomalies (weeks : list Z) (tows : list R) (ephem : list Eph.t)
    (ecc_anom : list R) :
  length weeks = length ephem -> length tows = length ephem ->
  length ecc_anom = length ephem ->
  exists states,
    mapM (fun '(week, tow, eph, E) => sv_state week tow eph E)
         (combine (combine (combine weeks tows) ephem) ecc_anom) = Return states
    /\ map Sv.sv_id states = map Eph.sv_id ephem
    /\ map Sv.times states = tows.
Proof.
  intros Hw Ht He.
  destruct (mapM_sv_state (combine (combine (combine weeks tows) ephem) ecc_anom))
    as [states [Hm [Hid Htime]]].
  exists states. split; [exact Hm|].
  assert (H1 : map fst (combine (combine (combine weeks tows) ephem) ecc_anom)
               = combine (combine weeks tows) ephem).
  { apply fst_combine. rewrite !length_combine. lia. }
  split.
  - rewrite Hid, <- (map_map fst (fun c => Eph.sv_id (snd c))), H1.
    rewrite <- (map_map snd Eph.sv_id). f_equal.
    apply snd_combine. rewrite length_combine. lia.
  - rewrite Htime, <- (map_map fst (fun c => snd (fst c))), H1.
    rewrite <- (map_map fst snd).
    rewrite fst_combine by (rewrite length_combine; lia).
    apply snd_combine. lia.
Qed.

(** X9.  For a single query time and a present ephemeris, [find_sv_states]
    ends in one of two ways.  Either it raises the [RuntimeWarning] of the
    solver, or it returns a table with one state per ephemeris column, in
    the order of the ephemeris, each carrying the identifier of its column
    and the time of week of the query. *)
Theorem find_sv_states_table (gps_millis : R) (ephem : list Eph.t) :
  (exists sv_posvel,
      find_sv_states (Scalar gps_millis) (Some ephem) = Return sv_posvel
      /\ map Sv.sv_id sv_posvel = map Eph.sv_id ephem
      /\ Forall (fun s => Sv.times s = snd (gps_millis_to_tow gps_millis)) sv_posvel)
  \/ find_sv_states (Scalar gps_millis) (Some ephem) = Raise RuntimeWarning.
Proof.
  unfold find_sv_states. cbn [nd_map broadcast bind].
  set (week := fst (gps_millis_to_tow gps_millis)).
  set (tow := snd (gps_millis_to_tow gps_millis)).
  unfold default_max_iter.
  rewrite (compute_eccentric_anomaly_outcome (Scalar week) (Scalar tow) ephem
             default_tol 9 (repeat week (length ephem)) (repeat tow (length ephem))
             eq_refl eq_refl).
  destruct (existsb _ _); [now right | left].
  cbn [bind].
  destruct (states_of_anomalies (repeat week (length ephem)) (repeat tow (length ephem))
              ephem
              (map (fun '(M, e) => newton_raphson M e 10)
                   (kepler_cols (repeat week (length ephem))
                      (repeat tow (length ephem)) ephem)))
    as [states [Hm [Hid Htime]]].
  - apply repeat_length.
  - apply repeat_length.
  - rewrite length_map. apply kepler_cols_length; apply repeat_length.
  - exists states. split; [exact Hm|]. split; [exact Hid|].
    apply Forall_forall. intros s Hs.
    assert (Hin : In (Sv.times s) (map Sv.times states)) by now apply in_map.
    rewrite Htime in Hin. now apply repeat_spec in Hin.
Qed.

(** Circular orbits are always propagated. *)
Lemma find_sv_states_circular
    (gps_millis : ndarray R) (ephem : list Eph.t) (millis : list R) :
  broadcast (length ephem) gps_millis = Return millis ->
  Forall (fun eph => Eph.e eph = 0) ephem ->
  exists sv_posvel,
    find_sv_states gps_millis (Some ephem) = Return sv_posvel
    /\ length sv_posvel = length ephem.
Proof.
  intros Hb Hcirc. unfold find_sv_states.
  pose proof (broadcast_length _ _ _ Hb) as Hlen.
  rewrite (broadcast_nd_map (fun t => fst (gps_millis_to_tow t)) _ _ _ Hb).
  rewrite (broadcast_nd_map (fun t => snd (gps_millis_to_tow t)) _ _ _ Hb).
  cbn [bind]. unfold default_max_iter.
  rewrite (circular_converges _ _ ephem default_tol 9 _ _
             (broadcast_nd_map (fun t => fst (gps_millis_to_tow t)) _ _ _ Hb)
             (broadcast_nd_map (fun t => snd (gps_millis_to_tow t)) _ _ _ Hb) Hcirc)
    by (unfold default_tol; lra).
  cbn [bind].
  match goal with |- context [mapM _ (combine (combine (combine ?w ?t) ephem) ?E)] =>
    destruct (states_of_anomalies w t ephem E) as [states [Hm [Hid _]]] end.
  - now rewrite length_map.
  - now rewrite length_map.
  - rewrite length_map. apply kepler_cols_length; now rewrite length_map.
  - exists states. split; [exact Hm|].
    rewrite <- (length_map Sv.sv_id), Hid. apply length_map.
Qed.

(** On circular orbits, a well-formed receiver position and a single
    query time are enough for [_find_sv_location] to return, unless the
    ephemeris has a single column. *)
Lemma find_sv_location_circular
    (gps_millis x y z : R) (ephem : list Eph.t) (h : heap) :
  length ephem <> 1%nat ->
  Forall (fun eph => Eph.e eph = 0) ephem ->
  exists del_pos true_range states,
    _find_sv_location (Scalar gps_millis) [x; y; z] (Some ephem) None h =
    Return (length h, del_pos, true_range, h ++ [states])
    /\ length states = length ephem.
Proof.
  intros Hone Hcirc. unfold _find_sv_location. cbn [reshape_3_1 bind nd_map entries].
  destruct (find_sv_states_circular (Scalar (gps_millis - 1000 * T_TRANS)) ephem
              (repeat (gps_millis - 1000 * T_TRANS) (length ephem)) eq_refl Hcirc)
    as [states1 [H1 Hl1]].
  rewrite H1. cbn [bind].
  rewrite find_delxyz_range_returns by (rewrite Hl1; exact Hone). cbn [bind].
  rewrite elementwise_scalar. cbn [bind].
  match goal with |- context [find_sv_states (Vector ?ts) (Some ephem)] =>
    destruct (find_sv_states_circular (Vector ts) ephem ts) as [states2 [H2 Hl2]] end.
  - apply broadcast_of_length. rewrite !length_map. exact Hl1.
  - exact Hcirc.
  - rewrite H2. cbn [bind alloc]. rewrite deref_fresh. cbn [bind].
    rewrite find_delxyz_range_returns by (rewrite Hl2; exact Hone). cbn [bind].
    rewrite rotate_rows_returns by now rewrite !length_map.
    cbn [bind]. rewrite store_fresh.
    eexists. eexists. eexists. split; [reflexivity|].
    rewrite length_map, length_combine, !length_map, Nat.min_id. exact Hl2.
Qed.

End Tables.


(** ** Which satellites are visible *)

Lemma copy_cols_nonzero {A : Type} (pre table : list A) (keep : list bool) :
  (length keep <= length table)%nat ->
  copy_cols (pre ++ table) (nonzero_from (length pre) keep) =
  Return (map fst (filter snd (combine table keep))).
Proof.
  unfold copy_cols. revert pre keep.
  induction table as [|a table IH]; intros pre [|b keep] Hlen; simpl in Hlen;
    try reflexivity; try lia.
  assert (Hstep : pre ++ a :: table = (pre ++ [a]) ++ table)
    by now rewrite <- app_assoc.
  assert (Hnext : S (length pre) = length (pre ++ [a]))
    by (rewrite length_app; simpl; lia).
  cbn [nonzero_from combine filter snd]. destruct b.
  - cbn [mapM map fst]. rewrite nth_error_app2 by lia. rewrite Nat.sub_diag.
    cbn [nth_error bind]. rewrite Hstep, Hnext, IH by lia. reflexivity.
  - rewrite Hstep, Hnext, IH by lia. reflexivity.
Qed.

Lemma filter_combine_map {A B : Type} (p : B -> bool) (l : list A) (els : list B) :
  map fst (filter snd (combine l (map p els))) =
  map fst (filter (fun c => p (snd c)) (combine l els)).
Proof.
  revert els. induction l as [|a l IH]; intros [|b els]; simpl; try reflexivity.
  destruct (p b); simpl; now rewrite IH.
Qed.

Section Selection.
Context {K : Constants} {X : Collaborators}.

(** The approximate states the filter judges elevations on are those of
    the caller when there are some, and propagated ones otherwise.  When
    they are those of any number of satellites but one, the columns with
    an elevation above the mask are kept. *)
Lemma find_visible_svs_from_states
    (gps_millis : ndarray R) (x y z : R) (ephem : list Eph.t)
    (sv_posvel : option ref) (el_mask : R) (h : heap) (approx_posvel : list Sv.t) :
  match sv_posvel with
  | None => find_sv_states (nd_map (fun t => t - 1000 * T_TRANS) gps_millis) (Some ephem)
  | Some r => deref h r
  end = Return approx_posvel ->
  length approx_posvel <> 1%nat ->
  (length (fst (ecef_to_el_az [x; y; z] (positions approx_posvel))) <= length ephem)%nat ->
  _find_visible_svs gps_millis [x; y; z] (Some ephem) sv_posvel el_mask h =
  Return (map fst
            (filter (fun c => Rgtb (snd c) el_mask)
               (combine ephem (fst (ecef_to_el_az [x; y; z] (positions approx_posvel)))))).
Proof.
  intros Happrox Hmore Hlen. unfold _find_visible_svs.
  destruct sv_posvel as [r|]; cbv iota; rewrite Happrox.
  all: cbn [bind reshape_3_1]; unfold _extract_pos_vel_arr.
  all: rewrite (squeeze_columns (positions approx_posvel))
         by (unfold positions; now rewrite length_map).
  all: cbn [el_az_of bind].
  all: unfold nonzero; rewrite (copy_cols_nonzero [] ephem) by now rewrite length_map.
  all: now rewrite filter_combine_map.
Qed.

(** With approximate states of a single satellite, the flat position
    array is refused by [ecef_to_el_az]. *)
Lemma find_visible_svs_single
    (gps_millis : ndarray R) (x y z : R) (ephem : list Eph.t)
    (sv_posvel : option ref) (el_mask : R) (h : heap) (s : Sv.t) :
  match sv_posvel with
  | None => find_sv_states (nd_map (fun t => t - 1000 * T_TRANS) gps_millis) (Some ephem)
  | Some r => deref h r
  end = Return [s] ->
  _find_visible_svs gps_millis [x; y; z] (Some ephem) sv_posvel el_mask h =
  Raise RuntimeError.
Proof.
  intros Happrox. unfold _find_visible_svs.
  destruct sv_posvel as [r|]; cbv iota; rewrite Happrox; reflexivity.
Qed.

(** X10.  When the approximate states (the caller's when there are some,
    and then the query time plays no part; propagated ones otherwise) are
    those of two or more satellites, the filter keeps, in the order of
    the ephemeris, exactly the columns whose elevation is strictly
    greater than the mask, the elevations being those that
    [ecef_to_el_az] gives for the approximate positions.  When they are
    those of a single satellite, the call raises the [RuntimeError] of
    [ecef_to_el_az]. *)
Theorem find_visible_svs_selection
    (gps_millis : ndarray R) (x y z : R) (ephem : list Eph.t)
    (sv_posvel : option ref) (el_mask : R) (h : heap) (approx_posvel : list Sv.t) :
  match sv_posvel with
  | None => find_sv_states (nd_map (fun t => t - 1000 * T_TRANS) gps_millis) (Some ephem)
  | Some r => deref h r
  end = Return approx_posvel ->
  (length approx_posvel = 1%nat ->
   _find_visible_svs gps_millis [x; y; z] (Some ephem) sv_posvel el_mask h =
   Raise RuntimeError)
  /\ ((2 <= length approx_posvel)%nat ->
      (length (fst (ecef_to_el_az [x; y; z] (positions approx_posvel)))
       <= length ephem)%nat ->
      _find_visible_svs gps_millis [x; y; z] (Some ephem) sv_posvel el_mask h =
      Return (map fst
                (filter (fun c => Rgtb (snd c) el_mask)
                   (combine ephem
                      (fst (ecef_to_el_az [x; y; z] (positions approx_posvel))))))).
Proof.
  intros Happrox. split.
  - intros Hone. destruct approx_posvel as [|s [|s' approx_posvel]]; try discriminate.
    now apply (find_visible_svs_single gps_millis x y z ephem sv_posvel el_mask h s).
  - intros Hmore Hlen.
    apply (find_visible_svs_from_states gps_millis x y z ephem sv_posvel el_mask h
             approx_posvel Happrox); [lia | exact Hlen].
Qed.

Lemma filter_filter_implied {A : Type} (p q : A -> bool) (l : list A) :
  (forall a, q a = true -> p a = true) ->
  filter q (filter p l) = filter q l.
Proof.
  intros Himp. induction l as [|a l IH]; [reflexivity|].
  cbn [filter]. destruct (p a) eqn:Ep.
  - cbn [filter]. now rewrite IH.
  - destruct (q a) eqn:Eq; [|exact IH].
    apply Himp in Eq. congruence.
Qed.

(** X11.  Raising the mask never makes a satellite visible.  With
    approximate states of two or more satellites, what the filter returns
    for the higher mask is what it returns for the lower one with the
    columns whose elevation is at most the higher mask taken out, the
    others staying in their order. *)
Theorem find_visible_svs_higher_mask
    (gps_millis : ndarray R) (x y z : R) (ephem : list Eph.t)
    (sv_posvel : option ref) (lo hi : R) (h : heap) (approx_posvel : list Sv.t) :
  match sv_posvel with
  | None => find_sv_states (nd_map (fun t => t - 1000 * T_TRANS) gps_millis) (Some ephem)
  | Some r => deref h r
  end = Return approx_posvel ->
  (2 <= length approx_posvel)%nat ->
  (length (fst (ecef_to_el_az [x; y; z] (positions approx_posvel))) <= length ephem)%nat ->
  lo <= hi ->
  exists visible_lo : list (Eph.t * R),
    visible_lo =
    filter (fun c => Rgtb (snd c) lo)
      (combine ephem (fst (ecef_to_el_az [x; y; z] (positions approx_posvel))))
    /\ _find_visible_svs gps_millis [x; y; z] (Some ephem) sv_posvel lo h =
       Return (map fst visible_lo)
    /\ _find_visible_svs gps_millis [x; y; z] (Some ephem) sv_posvel hi h =
       Return (map fst (filter (fun c => Rgtb (snd c) hi) visible_lo)).
Proof.
  intros Happrox Hmore Hlen Hmask.
  assert (Hne : length approx_posvel <> 1%nat) by lia.
  rewrite (find_visible_svs_from_states _ _ _ _ _ _ lo _ _ Happrox Hne Hlen).
  rewrite (find_visible_svs_from_states _ _ _ _ _ _ hi _ _ Happrox Hne Hlen).
  eexists. split; [reflexivity|]. split; [reflexivity|].
  rewrite filter_filter_implied; [reflexivity|].
  intros c Hc. apply Rgtb_true in Hc. apply Rgtb_true. lra.
Qed.

End Selection.

(** ** The frame of the simulated satellites *)

Lemma deg2rad_90 : deg2rad 90 = PI / 2.
Proof. unfold deg2rad. field. Qed.

(** X12.  Over the real numbers, that is with the rounding of the
    floating-point operations left aside, the three rows of
    [svs_from_el_az] are east, north and up: the third coordinate of a
    satellite is 20,200,000 times the sine of its elevation, positive for
    every elevation strictly between 0 and 180 degrees, and a satellite at
    90 degrees of elevation is straight overhead whatever its azimuth. *)
Theorem svs_from_el_az_up (row_el row_az : list R) :
  length row_el = length row_az ->
  exists x y z,
    svs_from_el_az [row_el; row_az] = Return [x; y; z]
    /\ forall i el az,
         nth_error row_el i = Some el ->
         nth_error row_az i = Some az ->
         exists xi yi zi,
           nth_error x i = Some xi /\ nth_error y i = Some yi /\ nth_error z i = Some zi
           /\ zi = 20200000 * sin (deg2rad el)
           /\ (0 < el < 180 -> 0 < zi)
           /\ (el = 90 -> xi = 0 /\ yi = 0 /\ zi = 20200000).
Proof.
  intros Hlen. eexists. eexists. eexists. split; [reflexivity|].
  intros i el az Hel Haz.
  assert (Hc : nth_error (combine (map deg2rad row_az) (map deg2rad row_el)) i
               = Some (deg2rad az, deg2rad el)).
  { apply nth_error_combine; rewrite nth_error_map; [now rewrite Haz | now rewrite Hel]. }
  eexists. eexists. eexists.
  rewrite !nth_error_map, Hc, Hel. cbn [option_map].
  split; [reflexivity|]. split; [reflexivity|]. split; [reflexivity|].
  split; [reflexivity|]. split.
  - intros [H0 H180].
    assert (0 < sin (deg2rad el)).
    { apply sin_gt_0; unfold deg2rad; pose proof PI_RGT_0; nra. }
    lra.
  - intros ->. rewrite deg2rad_90, sin_PI2, cos_PI2. repeat split; ring.
Qed.

Lemma svs_from_el_az_up_witness :
  exists x y z,
    svs_from_el_az [[0; 45; 90]; [0; 180; 360]] = Return [x; y; z]
    /\ exists xi yi zi,
         nth_error x 2 = Some xi /\ nth_error y 2 = Some yi /\ nth_error z 2 = Some zi
         /\ xi = 0 /\ yi = 0 /\ zi = 20200000.
Proof.
  destruct (svs_from_el_az_up [0; 45; 90] [0; 180; 360] eq_refl)
    as [x [y [z [Hcall Hcols]]]].
  exists x, y, z. split; [exact Hcall|].
  destruct (Hcols 2%nat 90 360 eq_refl eq_refl)
    as [xi [yi [zi [Hx [Hy [Hz [_ [_ Hzenith]]]]]]]].
  exists xi, yi, zi. destruct (Hzenith eq_refl) as [H1 [H2 H3]]. auto.
Defined.

(** ** Examples for the properties above *)

Section Examples.
#[local] Existing Instance gps_constants.
#[local] Existing Instance ideal_collaborators.

Lemma compute_eccentric_anomaly_circular_witness :
  _compute_eccentric_anomaly (Scalar 0%Z) (Scalar 0) circular_ephem default_tol 10 =
  Return (map fst (kepler_cols [0%Z; 0%Z] [0; 0] circular_ephem)).
Proof.
  apply (compute_eccentric_anomaly_circular (Scalar 0%Z) (Scalar 0) circular_ephem
           default_tol 9 [0%Z; 0%Z] [0; 0]).
  - reflexivity.
  - reflexivity.
  - repeat constructor.
  - unfold default_tol. lra.
Defined.

Lemma mirrored_last_corrections :
  last_corrections (kepler_cols [0%Z] [0] [mirrored_eph]) 10 = [- (21 / 5)].
Proof.
  rewrite mirrored_cols. unfold last_corrections. now rewrite mirrored_loop.
Qed.

Lemma convergence_test_one_sided_witness :
  In (- (21 / 5)) (last_corrections (kepler_cols [0%Z] [0] [mirrored_eph]) 10)
  /\ _compute_eccentric_anomaly (Scalar 0%Z) (Scalar 0) [mirrored_eph] default_tol 10 =
     Return (map (fun '(M, e) => newton_raphson M e 10)
               (kepler_cols [0%Z] [0] [mirrored_eph])).
Proof.
  split.
  - rewrite mirrored_last_corrections. now left.
  - apply (convergence_test_one_sided (Scalar 0%Z) (Scalar 0) [mirrored_eph]
             default_tol 9 [0%Z] [0]).
    + reflexivity.
    + reflexivity.
    + intros d Hd. rewrite mirrored_last_corrections in Hd.
      destruct Hd as [<- | []]. unfold default_tol. lra.
Defined.

Lemma spherical_el_az_length (rx_ecef : list R) (pos : list (R * R * R)) :
  length (fst (spherical_el_az rx_ecef pos)) = length pos.
Proof.
  unfold spherical_el_az.
  destruct (match rx_ecef with [x; y; z] => (x, y, z) | _ => (0, 0, 0) end) as [[x y] z].
  cbn [fst]. now rewrite !length_map.
Qed.

(** A satellite straight above a receiver on the equator is seen at 90
    degrees of elevation, and a satellite on the other side of the Earth
    at 90 degrees below the horizon. *)
Lemma caller_elevations :
  fst (spherical_el_az [6378137; 0; 0] (positions caller_table)) = [90; -90].
Proof.
  change (positions caller_table) with [(26560000, 0, 0); (-26560000, 0, 0)].
  unfold spherical_el_az. cbn [map fst snd].
  replace (6378137 * 6378137 + 0 * 0 + 0 * 0) with (6378137 * 6378137) by ring.
  replace ((26560000 - 6378137) * (26560000 - 6378137) + (0 - 0) * (0 - 0)
           + (0 - 0) * (0 - 0)) with (20181863 * 20181863) by ring.
  replace ((-26560000 - 6378137) * (-26560000 - 6378137) + (0 - 0) * (0 - 0)
           + (0 - 0) * (0 - 0)) with (32938137 * 32938137) by ring.
  rewrite !sqrt_square by lra.
  replace (((26560000 - 6378137) * 6378137 + (0 - 0) * 0 + (0 - 0) * 0) / 6378137
           / 20181863) with 1 by (field; lra).
  replace (((-26560000 - 6378137) * 6378137 + (0 - 0) * 0 + (0 - 0) * 0) / 6378137
           / 32938137) with (- (1)) by (field; lra).
  rewrite asin_opp, asin_1. unfold rad2deg.
  f_equal; [|f_equal]; field; apply PI_neq0.
Qed.

Lemma find_visible_svs_selection_witness :
  _find_visible_svs (Scalar 0) [6378137; 0; 0] (Some [eph0]) (Some 0%nat)
    default_el_mask single_heap = Raise RuntimeError
  /\ _find_visible_svs (Scalar 0) [6378137; 0; 0] (Some circular_ephem) (Some 0%nat)
       default_el_mask caller_heap = Return [eph0].
Proof.
  split.
  - apply (find_visible_svs_selection (Scalar 0) 6378137 0 0 [eph0] (Some 0%nat)
             default_el_mask single_heap [caller_state] eq_refl).
    reflexivity.
  - destruct (find_visible_svs_selection (Scalar 0) 6378137 0 0 circular_ephem
                (Some 0%nat) default_el_mask caller_heap caller_table eq_refl)
      as [_ Hmany].
    rewrite Hmany.
    + change (@ecef_to_el_az ideal_collaborators) with spherical_el_az.
      rewrite caller_elevations. unfold circular_ephem. cbn [combine filter snd].
      replace (Rgtb 90 default_el_mask) with true
        by (symmetry; apply Rgtb_true; unfold default_el_mask; lra).
      replace (Rgtb (-90) default_el_mask) with false; [reflexivity|].
      symmetry. apply not_true_is_false. intros Hgt. apply Rgtb_true in Hgt.
      unfold default_el_mask in Hgt. lra.
    + simpl. lia.
    + change (@ecef_to_el_az ideal_collaborators) with spherical_el_az.
      rewrite spherical_el_az_length. simpl. lia.
Defined.

Lemma find_visible_svs_higher_mask_witness :
  exists visible_lo : list (Eph.t * R),
    visible_lo =
    filter (fun c => Rgtb (snd c) 5)
      (combine circular_ephem
         (fst (ecef_to_el_az [6378137; 0; 0] (positions caller_table))))
    /\ _find_visible_svs (Scalar 0) [6378137; 0; 0] (Some circular_ephem) (Some 0%nat)
         5 caller_heap = Return (map fst visible_lo)
    /\ _find_visible_svs (Scalar 0) [6378137; 0; 0] (Some circular_ephem) (Some 0%nat)
         95 caller_heap = Return (map fst (filter (fun c => Rgtb (snd c) 95) visible_lo)).
Proof.
  apply (find_visible_svs_higher_mask (Scalar 0) 6378137 0 0 circular_ephem
           (Some 0%nat) 5 95 caller_heap caller_table eq_refl).
  - simpl. lia.
  - change (@ecef_to_el_az ideal_collaborators) with spherical_el_az.
    rewrite spherical_el_az_length. simpl. lia.
  - lra.
Defined.

End Examples.

(** * Properties of the RINEX reader *)

Section RinexText.
Import Rinex.
Open Scope string_scope.

Lemma split_skips_spaces (pad s : string) :
  all_spaces pad = true -> split (pad ++ s) = split s.
Proof.
  induction pad as [|c pad IH]; [reflexivity|].
  cbn [all_spaces]. intros H. apply andb_prop in H. destruct H as [Hc Hpad].
  cbn [append split]. rewrite Hc. now apply IH.
Qed.

Lemma split_cons (c : ascii) (rest : string) :
  split (String c rest) =
  if is_space c then split rest
  else match rest with
       | EmptyString => [String c EmptyString]
       | String c' _ =>
           if is_space c' then String c EmptyString :: split rest
           else match split rest with
                | t :: ts => String c t :: ts
                | [] => [String c EmptyString]
                end
       end.
Proof. reflexivity. Qed.

(** A run of characters that are not spaces, followed by a space, is the
    first token. *)
Lemma split_token (t : string) (sp : ascii) (rest : string) :
  t <> "" -> no_space t = true -> is_space sp = true ->
  split (t ++ String sp rest) = t :: split rest.
Proof.
  induction t as [|c t IH]; [congruence|].
  intros _ Hno Hsp. cbn [no_space] in Hno. apply andb_prop in Hno.
  destruct Hno as [Hc Ht]. apply negb_true_iff in Hc.
  cbn [append]. rewrite split_cons, Hc.
  destruct t as [|c' t].
  - cbn [append]. rewrite Hsp. now rewrite (split_cons sp), Hsp.
  - assert (Hc' : is_space c' = false).
    { cbn [no_space] in Ht. apply andb_prop in Ht. destruct Ht as [Hc' _].
      now apply negb_true_iff in Hc'. }
    assert (Hrec : split (String c' t ++ String sp rest) = String c' t :: split rest)
      by (apply IH; [congruence | exact Ht | exact Hsp]).
    cbn [append] in *. now rewrite Hc', Hrec.
Qed.

Lemma split_single (t : string) :
  t <> "" -> no_space t = true -> split t = [t].
Proof.
  induction t as [|c t IH]; [congruence|].
  intros _ Hno. cbn [no_space] in Hno. apply andb_prop in Hno.
  destruct Hno as [Hc Ht]. apply negb_true_iff in Hc.
  rewrite split_cons, Hc.
  destruct t as [|c' t]; [reflexivity|].
  assert (Hc' : is_space c' = false).
  { cbn [no_space] in Ht. apply andb_prop in Ht. destruct Ht as [Hc' _].
    now apply negb_true_iff in Hc'. }
  rewrite Hc', IH by (congruence || assumption). reflexivity.
Qed.

Lemma digits_of_uint (d : Decimal.uint) (acc : nat) (after_digit : bool) :
  d <> Decimal.Nil \/ after_digit = true ->
  digits_value (DecimalString.NilEmpty.string_of_uint d) (Z.of_nat acc) after_digit
  = Some (Z.of_nat (Nat.of_uint_acc d acc)).
Proof.
  revert acc after_digit.
  induction d as [|d IH|d IH|d IH|d IH|d IH|d IH|d IH|d IH|d IH|d IH];
    intros acc after_digit H;
    [ destruct H as [H | ->]; [congruence | reflexivity] | .. ];
    cbn [DecimalString.NilEmpty.string_of_uint digits_value Nat.of_uint_acc];
    match goal with
    | |- context [is_digit ?c] =>
        change (is_digit c) with true;
        let v := eval vm_compute in (digit_value c) in
        change (digit_value c) with v
    end;
    cbv iota; rewrite <- (IH _ true) by (now right);
    f_equal; rewrite Nat.tail_mul_spec; lia.
Qed.

Lemma no_space_digits (d : Decimal.uint) :
  no_space (DecimalString.NilEmpty.string_of_uint d) = true.
Proof. induction d; cbn [DecimalString.NilEmpty.string_of_uint no_space]; auto. Qed.

Lemma digits_not_empty (d : Decimal.uint) :
  d <> Decimal.Nil -> DecimalString.NilEmpty.string_of_uint d <> "".
Proof. destruct d; cbn; congruence. Qed.

Lemma count_digits_uint (d : Decimal.uint) :
  count_digits (DecimalString.NilEmpty.string_of_uint d) = Decimal.nb_digits d.
Proof.
  induction d; cbn [DecimalString.NilEmpty.string_of_uint count_digits Decimal.nb_digits];
    [reflexivity | ..];
    match goal with
    | |- context [is_digit ?c] => change (is_digit c) with true
    end; cbv iota; now rewrite IHd.
Qed.

(** [int] reads a string of decimal digits, no more than it converts, as
    the number they write. *)
Lemma py_int_digits (d : Decimal.uint) :
  d <> Decimal.Nil ->
  (Decimal.nb_digits d <= int_max_str_digits)%nat ->
  py_int (DecimalString.NilEmpty.string_of_uint d) = Ok (Z.of_nat (Nat.of_uint d)).
Proof.
  intros Hd Hmax. unfold py_int.
  rewrite split_single by auto using digits_not_empty, no_space_digits.
  assert (H := digits_of_uint d 0 false (or_introl Hd)).
  change (Z.of_nat 0) with 0%Z in H. fold (Nat.of_uint d) in H.
  assert (Hlim : Nat.ltb int_max_str_digits
                   (count_digits (DecimalString.NilEmpty.string_of_uint d)) = false).
  { rewrite count_digits_uint. apply Nat.ltb_ge. exact Hmax. }
  rewrite Hlim.
  destruct d; try congruence;
    cbn [DecimalString.NilEmpty.string_of_uint] in *; now rewrite H.
Qed.

Lemma py_int_fails (s : string) (e : pyexn) : py_int s = Fail e -> e = ValueError.
Proof.
  unfold py_int. destruct (split s) as [|t [|? ?]]; try congruence.
  match goal with |- context [match ?x with Some _ => _ | None => _ end] => destruct x end;
    [|congruence].
  destruct (Nat.ltb _ _); congruence.
Qed.

Lemma contains_not_blank (c : ascii) (needle hay : string) :
  is_space c = false -> contains (String c needle) hay = true -> all_spaces hay = false.
Proof.
  intros Hc. induction hay as [|h hay IH]; cbn [contains String.prefix all_spaces].
  - discriminate.
  - intros H. apply orb_true_iff in H. destruct H as [H | H].
    + destruct (Ascii.ascii_dec c h) as [<- | _]; [now rewrite Hc | discriminate].
    + rewrite (IH H). apply andb_false_r.
Qed.

Lemma split_not_blank (s : string) : all_spaces s = false -> split s <> [].
Proof.
  induction s as [|c s IH]; [discriminate|].
  cbn [all_spaces]. rewrite split_cons. destruct (is_space c); cbn [andb].
  - exact IH.
  - intros _. destruct s as [|c' s]; [discriminate|].
    destruct (is_space c'); [discriminate|]. destruct (split (String c' s)); discriminate.
Qed.

(** Lines that carry neither mark are passed over. *)
Lemma load_leapseconds_skip (before f : list string) :
  Forall (fun line => contains "LEAP SECONDS" line = false
                      /\ contains "END OF HEADER" line = false) before ->
  load_leapseconds (before ++ f) = load_leapseconds f.
Proof.
  induction 1 as [|line before [Hl He] _ IH]; [reflexivity|].
  cbn [app load_leapseconds]. now rewrite Hl, He.
Qed.

(** X13.  [load_leapseconds] returns the number that opens the first line
    marked LEAP SECONDS, when no earlier line is marked END OF HEADER:
    the digits, at most the 4300 that [int] converts, may follow spaces
    and are read up to the next space; nothing after that line is looked
    at. *)
Theorem load_leapseconds_reads
  (before after : list string) (pad rest : string) (sp : ascii) (d : Decimal.uint) :
  Forall (fun line => contains "LEAP SECONDS" line = false
                      /\ contains "END OF HEADER" line = false) before ->
  all_spaces pad = true -> d <> Decimal.Nil ->
  (Decimal.nb_digits d <= int_max_str_digits)%nat -> is_space sp = true ->
  contains "LEAP SECONDS"
    (pad ++ DecimalString.NilEmpty.string_of_uint d ++ String sp rest) = true ->
  load_leapseconds
    (before ++ (pad ++ DecimalString.NilEmpty.string_of_uint d ++ String sp rest) :: after)
  = Ok (Some (Z.of_nat (Nat.of_uint d))).
Proof.
  intros Hbefore Hpad Hd Hmax Hsp Hmark.
  rewrite load_leapseconds_skip by exact Hbefore.
  cbn [load_leapseconds]. rewrite Hmark. unfold first_token.
  rewrite split_skips_spaces by exact Hpad.
  rewrite split_token by auto using digits_not_empty, no_space_digits.
  cbn [and_then]. now rewrite py_int_digits.
Qed.

(** X14.  The search for the leap seconds stops at the header's end: when
    no line of the header is marked LEAP SECONDS and the header is closed
    by END OF HEADER, or nothing follows it, the result is [None] whatever
    the lines after the header hold. *)
Theorem load_leapseconds_header_bound (header after : list string) :
  Forall (fun line => contains "LEAP SECONDS" line = false) header ->
  after = [] \/ Exists (fun line => contains "END OF HEADER" line = true) header ->
  load_leapseconds (header ++ after) = Ok None.
Proof.
  induction 1 as [|line header Hl _ IH]; intros Hend.
  - destruct Hend as [-> | Hend]; [reflexivity | inversion Hend].
  - cbn [app load_leapseconds]. rewrite Hl.
    destruct (contains "END OF HEADER" line) eqn:He; [reflexivity|].
    apply IH. destruct Hend as [-> | Hend]; [now left | right].
    inversion Hend; subst; [congruence | assumption].
Qed.

(** X15.  The only error of [load_leapseconds] is the [ValueError] of
    [int]: a line marked LEAP SECONDS is not blank, so taking its first
    word never fails. *)
Theorem load_leapseconds_only_value_error (f : list string) (e : pyexn) :
  load_leapseconds f = Fail e -> e = ValueError.
Proof.
  induction f as [|line f IH]; cbn [load_leapseconds]; [discriminate|].
  destruct (contains "LEAP SECONDS" line) eqn:Hl.
  - unfold first_token.
    destruct (split line) as [|t ts] eqn:Hs.
    + exfalso. revert Hs. apply split_not_blank.
      now apply (contains_not_blank "L" "EAP SECONDS").
    + cbn [and_then]. destruct (py_int t) eqn:Hi; cbn [and_then]; [discriminate|].
      intros [= <-]. now apply (py_int_fails t).
  - destruct (contains "END OF HEADER" line); [discriminate | exact IH].
Qed.

Close Scope string_scope.

(** X16.  The time of clock is the time of the week: it lies between 0 and
    the length of a week, and differs from the seconds since 6 January
    1980 by a whole number of weeks. *)
Theorem t_oc_time_of_week (WEEKSEC : R) (nanos : Z) :
  0 < WEEKSEC ->
  0 <= t_oc WEEKSEC nanos < WEEKSEC
  /\ exists weeks : Z, 1 / 1000000000 * IZR nanos = IZR weeks * WEEKSEC + t_oc WEEKSEC nanos.
Proof.
  intros HW. unfold t_oc.
  set (s := 1 / 1000000000 * IZR nanos).
  destruct (base_Int_part (s / WEEKSEC)) as [Hlo Hhi].
  set (k := IZR (Int_part (s / WEEKSEC))) in *.
  assert (Hs : s = WEEKSEC * (s / WEEKSEC)) by (field; lra).
  split; [split|].
  - assert (WEEKSEC * k <= WEEKSEC * (s / WEEKSEC)) by (apply Rmult_le_compat_l; lra). lra.
  - assert (WEEKSEC * (s / WEEKSEC - 1) < WEEKSEC * k) by (apply Rmult_lt_compat_l; lra). lra.
  - exists (Int_part (s / WEEKSEC)). fold k. ring.
Qed.

Lemma existsb_eqb_In (b : ascii) (l : list ascii) :
  existsb (Ascii.eqb b) l = true <-> In b l.
Proof.
  rewrite existsb_exists. split.
  - intros (x & Hx & Hb). apply Ascii.eqb_eq in Hb. now subst.
  - intros H. exists b. split; [exact H | apply Ascii.eqb_refl].
Qed.

Lemma bands_of_measures_ok (rx_measures : list string) (acc bands : list ascii) :
  bands_of_measures rx_measures acc = Ok bands ->
  (NoDup acc -> NoDup bands)
  /\ (forall b, In b bands <->
                In b acc \/ exists m, In m rx_measures /\ measure_band m = Ok b)
  /\ (forall m, In m rx_measures -> exists b, measure_band m = Ok b).
Proof.
  revert acc. induction rx_measures as [|m ms IH]; intros acc; cbn [bands_of_measures].
  - intros [= <-]. split; [auto|]. split; [|intros ? []].
    intros b. split; [now left | intros [H | (m & [] & _)]; exact H].
  - destruct (measure_band m) as [band|e] eqn:Hm; cbn [and_then]; [|discriminate].
    destruct (existsb (Ascii.eqb band) acc) eqn:Hin; intros H;
      apply IH in H; destruct H as (Hnd & Hmem & Hall).
    + apply existsb_eqb_In in Hin. split; [exact Hnd|]. split.
      * intros b. rewrite Hmem. split.
        -- intros [H | (m' & Hm' & Hb)]; [now left | right; exists m'; split; [now right | exact Hb]].
        -- intros [H | (m' & [<- | Hm'] & Hb)]; [now left | | right; now exists m'].
           left. congruence.
      * intros m' [<- | Hm']; [now exists band | now apply Hall].
    + assert (Hnot : ~ In band acc).
      { intros Hc. apply existsb_eqb_In in Hc. congruence. }
      split; [|split].
      * intros Hacc. apply Hnd. apply NoDup_app; [exact Hacc | repeat constructor; intros [] | ].
        intros a Ha [<- | []]. contradiction.
      * intros b. rewrite Hmem, in_app_iff. cbn [In]. split.
        -- intros [[H | [<- | []]] | (m' & Hm' & Hb)];
             [now left | right; exists m; split; [now left | exact Hm]
             | right; exists m'; split; [now right | exact Hb]].
        -- intros [H | (m' & [<- | Hm'] & Hb)];
             [left; now left | left; right; left; congruence | right; now exists m'].
      * intros m' [<- | Hm']; [now exists band | now apply Hall].
Qed.

Lemma bands_of_measures_fail (rx_measures : list string) (acc : list ascii) (e : pyexn) :
  bands_of_measures rx_measures acc = Fail e -> e = IndexError.
Proof.
  revert acc. induction rx_measures as [|m ms IH]; intros acc; cbn [bands_of_measures];
    [discriminate|].
  destruct m as [|c [|band m]]; cbn [measure_band and_then]; try congruence.
  destruct (existsb (Ascii.eqb band) acc); apply IH.
Qed.

Lemma bands_of_fields_ok (fields : list (list string)) (acc bands : list ascii) :
  bands_of_fields fields acc = Ok bands ->
  (NoDup acc -> NoDup bands)
  /\ (forall b, In b bands <->
                In b acc \/ exists ms m, In ms fields /\ In m ms /\ measure_band m = Ok b)
  /\ (forall ms m, In ms fields -> In m ms -> exists b, measure_band m = Ok b).
Proof.
  revert acc. induction fields as [|ms fields IH]; intros acc; cbn [bands_of_fields].
  - intros [= <-]. split; [auto|]. split; [|intros ? ? []].
    intros b. split; [now left | intros [H | (ms & m & [] & _)]; exact H].
  - destruct (bands_of_measures ms acc) as [mid|e] eqn:Hms; cbn [and_then]; [|discriminate].
    intros H. apply IH in H. destruct H as (Hnd & Hmem & Hall).
    apply bands_of_measures_ok in Hms. destruct Hms as (Hnd' & Hmem' & Hall').
    split; [auto|]. split.
    + intros b. rewrite Hmem, Hmem'. split.
      * intros [[H | (m & Hm & Hb)] | (ms' & m & Hms' & Hm & Hb)];
          [now left | right; exists ms, m; auto with datatypes
          | right; exists ms', m; auto with datatypes].
      * intros [H | (ms' & m & [<- | Hms'] & Hm & Hb)];
          [left; now left | left; right; now exists m | right; now exists ms', m].
    + intros ms' m [<- | Hms'] Hm; [now apply Hall' | now apply (Hall ms')].
Qed.

Lemma bands_of_fields_fail (fields : list (list string)) (acc : list ascii) (e : pyexn) :
  bands_of_fields fields acc = Fail e -> e = IndexError.
Proof.
  revert acc. induction fields as [|ms fields IH]; intros acc; cbn [bands_of_fields];
    [discriminate|].
  destruct (bands_of_measures ms acc) as [mid|e'] eqn:Hms; cbn [and_then].
  - apply IH.
  - intros [= <-]. now apply bands_of_measures_fail in Hms.
Qed.

(** X17.  The bands of an observation file, when the loops end: no band is
    listed twice, and the bands listed are exactly the second characters
    of the measurement types of the header. *)
Theorem rx_bands_distinct (obs_measure_types : list (list string)) (bands : list ascii) :
  rx_bands obs_measure_types = Ok bands ->
  NoDup bands
  /\ forall b, In b bands <->
               exists rx_measures single_measure,
                 In rx_measures obs_measure_types /\ In single_measure rx_measures
                 /\ measure_band single_measure = Ok b.
Proof.
  unfold rx_bands. intros H. apply bands_of_fields_ok in H.
  destruct H as (Hnd & Hmem & _). split; [apply Hnd; constructor|].
  intros b. rewrite Hmem. split; [intros [[] | H]; exact H | now right].
Qed.

(** X18.  One measurement type of fewer than two characters anywhere in
    the header makes the band loop raise [IndexError], wherever it stands
    and whatever the other types are. *)
Theorem rx_bands_short_measure
  (obs_measure_types : list (list string)) (rx_measures : list string) (single_measure : string) :
  In rx_measures obs_measure_types -> In single_measure rx_measures ->
  (String.length single_measure < 2)%nat ->
  rx_bands obs_measure_types = Fail IndexError.
Proof.
  intros Hms Hm Hlen. unfold rx_bands.
  destruct (bands_of_fields obs_measure_types []) as [bands|e] eqn:H.
  - apply bands_of_fields_ok in H. destruct H as (_ & _ & Hall).
    destruct (Hall _ _ Hms Hm) as [b Hb].
    destruct single_measure as [|c [|c' m]]; cbn in Hb, Hlen; try discriminate; lia.
  - now rewrite (bands_of_fields_fail _ _ _ H).
Qed.

Lemma for_each_map_ok {A B C : Type} (f : B -> outcome C) (h : A -> B) (g : A -> C)
  (l : list A) :
  (forall a, In a l -> f (h a) = Ok (g a)) -> for_each f (map h l) = Ok (map g l).
Proof.
  induction l as [|a l IH]; intros H; [reflexivity|].
  cbn [map for_each]. rewrite H by now left. cbn [and_then].
  rewrite IH by (intros; apply H; now right). reflexivity.
Qed.

Lemma for_each_fails {A B : Type} (f : A -> outcome B) (l : list A) (e : pyexn) :
  (forall a e', f a = Fail e' -> e' = e) ->
  (exists a, In a l /\ f a = Fail e) -> for_each f l = Fail e.
Proof.
  intros Honly. induction l as [|a l IH]; intros (x & Hx & Hf); [destruct Hx|].
  cbn [for_each]. destruct (f a) as [b|e'] eqn:Ha; cbn [and_then].
  - destruct Hx as [<- | Hx]; [congruence|].
    rewrite IH by now exists x. reflexivity.
  - now rewrite (Honly _ _ Ha).
Qed.

(** X19.  One empty identifier among the satellites makes the split into
    constellation and number raise [IndexError], even when an identifier
    before it has a letter of no constellation or a number that [int]
    refuses: all first characters are taken before anything is looked
    up. *)
Theorem split_sv_ids_empty_id (CONSTELLATION_CHARS : list (ascii * string))
  (sv_id : list string) :
  In EmptyString sv_id -> split_sv_ids CONSTELLATION_CHARS sv_id = Fail IndexError.
Proof.
  intros H. unfold split_sv_ids.
  rewrite (for_each_fails first_char sv_id IndexError); [reflexivity | |].
  - intros [|c a] e'; cbn [first_char]; congruence.
  - now exists EmptyString.
Qed.

(** X20.  For identifiers made of a letter of [CONSTELLATION_CHARS]
    followed by decimal digits, at most the 4300 that [int] converts and
    writing a number below 2^63, the split keeps the identifiers in
    [gnss_sv_id], gives the constellations of the letters in [gnss_id] and
    the numbers that the digits write in [sv_id], leading zeros
    included. *)
Theorem split_sv_ids_rows (CONSTELLATION_CHARS : list (ascii * string))
  (sats : list (ascii * string * Decimal.uint)) :
  (forall c name d, In (c, name, d) sats ->
     lookup c CONSTELLATION_CHARS = Some name
     /\ d <> Decimal.Nil
     /\ (Decimal.nb_digits d <= int_max_str_digits)%nat
     /\ (Z.of_nat (Nat.of_uint d) < 2 ^ 63)%Z) ->
  split_sv_ids CONSTELLATION_CHARS
    (map (fun sat => String (fst (fst sat))
                       (DecimalString.NilEmpty.string_of_uint (snd sat))) sats)
  = Ok (map (fun sat => String (fst (fst sat))
                          (DecimalString.NilEmpty.string_of_uint (snd sat))) sats,
        map (fun sat => snd (fst sat)) sats,
        map (fun sat => Z.of_nat (Nat.of_uint (snd sat))) sats).
Proof.
  intros H. unfold split_sv_ids.
  rewrite (for_each_map_ok first_char _ (fun sat => fst (fst sat))) by reflexivity.
  cbn [and_then].
  rewrite <- (map_id (map (fun sat : ascii * string * Decimal.uint => fst (fst sat)) sats)) at 1.
  rewrite map_map.
  rewrite (for_each_map_ok _ _ (fun sat => snd (fst sat))).
  2:{ intros [[c name] d] Hin. cbn [fst snd].
      now destruct (H c name d Hin) as [-> _]. }
  cbn [and_then]. rewrite map_map.
  rewrite (for_each_map_ok int64_of_string _ (fun sat => Z.of_nat (Nat.of_uint (snd sat)))).
  2:{ intros [[c name] d] Hin. cbn [fst snd after_first].
      destruct (H c name d Hin) as (_ & Hd & Hmax & H63).
      unfold int64_of_string. rewrite py_int_digits by assumption. cbn [and_then].
      replace (Z.leb (- 2 ^ 63) (Z.of_nat (Nat.of_uint d))) with true
        by (symmetry; apply Z.leb_le; lia).
      replace (Z.ltb (Z.of_nat (Nat.of_uint d)) (2 ^ 63)) with true
        by (symmetry; apply Z.ltb_lt; exact H63).
      reflexivity. }
  reflexivity.
Qed.

Section IonoProperties.
Variable F : Type.
Variable nan : F.
Variable py_float : string -> outcome F.

Lemma header_get_missing (key : string) (header : list (string * string)) :
  (forall value, ~ In (key, value) header) -> header_get key header = Fail (KeyError key).
Proof.
  induction header as [|[k v] header IH]; intros H; [reflexivity|].
  cbn [header_get]. destruct (String.eqb key k) eqn:Hk.
  - apply String.eqb_eq in Hk. subst. exfalso. apply (H v). now left.
  - apply IH. intros value Hin. apply (H value). now right.
Qed.

Lemma header_get_fails (key : string) (header : list (string * string)) (e : pyexn) :
  header_get key header = Fail e -> forall value, ~ In (key, value) header.
Proof.
  induction header as [|[k v] header IH]; [intros _ value []|].
  cbn [header_get]. destruct (String.eqb key k) eqn:Hk; [discriminate|].
  intros H value [[= <- <-] | Hin].
  - now rewrite String.eqb_refl in Hk.
  - now apply (IH H value).
Qed.

(** What one of the two [try] blocks leaves: the numbers of the record
    as one row, or one not-a-number when the header has no such record. *)
Lemma iono_record_one_row (key : string) (header : list (string * string))
  (rows : list (list F)) :
  iono_record F nan py_float key header = Ok rows ->
  exists row,
    rows = [row]
    /\ ((exists value,
            header_get key header = Ok value
            /\ for_each py_float (split (replace_D_E value)) = Ok row)
        \/ ((forall value, ~ In (key, value) header) /\ row = [nan])).
Proof.
  unfold iono_record. destruct (header_get key header) as [value|e] eqn:Hget.
  - destruct (for_each py_float (split (replace_D_E value))) as [values|e] eqn:Hvalues;
      cbn [and_then]; [|discriminate].
    intros [= <-]. exists values. split; [reflexivity|]. left. now exists value.
  - pose proof (header_get_fails key header e Hget) as Hmissing.
    destruct e; try discriminate.
    intros [= <-]. exists [nan]. split; [reflexivity|]. now right.
Qed.

(** X21.  Whenever [get_iono_params] returns, the array has exactly two
    rows of one length, the parameters ION ALPHA above the parameters
    ION BETA: each row holds the numbers of its record in the header,
    read with [D] for the exponent, or a single not-a-number when the
    header has no such record. *)
Theorem get_iono_params_two_rows (header : list (string * string)) (iono_params : list (list F)) :
  get_iono_params F nan py_float header = Ok iono_params ->
  exists ion_alpha ion_beta,
    iono_params = [ion_alpha; ion_beta]
    /\ length ion_alpha = length ion_beta
    /\ ((exists value,
            header_get "ION ALPHA" header = Ok value
            /\ for_each py_float (split (replace_D_E value)) = Ok ion_alpha)
        \/ ((forall value, ~ In ("ION ALPHA"%string, value) header) /\ ion_alpha = [nan]))
    /\ ((exists value,
            header_get "ION BETA" header = Ok value
            /\ for_each py_float (split (replace_D_E value)) = Ok ion_beta)
        \/ ((forall value, ~ In ("ION BETA"%string, value) header) /\ ion_beta = [nan])).
Proof.
  unfold get_iono_params.
  destruct (iono_record F nan py_float "ION ALPHA" header) as [a|e] eqn:Ha; cbn [and_then];
    [|discriminate].
  destruct (iono_record F nan py_float "ION BETA" header) as [b|e] eqn:Hb; cbn [and_then];
    [|discriminate].
  apply iono_record_one_row in Ha, Hb.
  destruct Ha as [ra [-> Halpha]], Hb as [rb [-> Hbeta]].
  cbn [vstack app]. destruct (Nat.eqb (length ra) (length rb)) eqn:Hlen; [|discriminate].
  intros [= <-]. exists ra, rb.
  split; [reflexivity|]. split; [now apply Nat.eqb_eq|]. split; assumption.
Qed.

(** X22.  A header that holds only one of the two ionosphere records makes
    [get_iono_params] raise [ValueError], unless that record holds exactly
    one number: the missing record stands for a single not-a-number, which
    cannot be stacked on a row of another length. *)
Theorem get_iono_params_lone_record
  (header : list (string * string)) (present missing value : string) (values : list F) :
  (present, missing) = ("ION ALPHA", "ION BETA")%string
  \/ (present, missing) = ("ION BETA", "ION ALPHA")%string ->
  header_get present header = Ok value ->
  (forall v, ~ In (missing, v) header) ->
  for_each py_float (split (replace_D_E value)) = Ok values ->
  length values <> 1%nat ->
  get_iono_params F nan py_float header = Fail ValueError.
Proof.
  intros Hkeys Hpresent Hmissing Hvalues Hlen.
  apply header_get_missing in Hmissing.
  assert (Hp : iono_record F nan py_float present header = Ok [values])
    by (unfold iono_record; now rewrite Hpresent, Hvalues).
  assert (Hm : iono_record F nan py_float missing header = Ok [[nan]])
    by (unfold iono_record; now rewrite Hmissing).
  unfold get_iono_params.
  destruct Hkeys as [[= <- <-] | [= <- <-]]; rewrite Hp, Hm; cbn [and_then vstack length].
  - destruct (Nat.eqb (length values) 1) eqn:E; [apply Nat.eqb_eq in E; contradiction | reflexivity].
  - destruct (Nat.eqb 1 (length values)) eqn:E;
      [apply Nat.eqb_eq in E; congruence | reflexivity].
Qed.

End IonoProperties.

(** X23.  For a day of the calendar, the time stamp of the day before is
    built only when the day is not the first of its month: on a first of
    the month the constructor is given day 0 and raises [ValueError]. *)
Theorem prev_day_timestamp_first_of_month (year month day : Z) :
  datetime year month day = Ok (year, month, day) ->
  prev_day_timestamp (year, month, day)
  = if Z.eqb day 1 then Fail ValueError else Ok (year, month, (day - 1)%Z).
Proof.
  unfold prev_day_timestamp, datetime.
  destruct (Z.leb 1 year) eqn:H1; cbn [andb]; [|discriminate].
  destruct (Z.leb year 9999) eqn:H2; cbn [andb]; [|discriminate].
  destruct (Z.leb 1 month) eqn:H3; cbn [andb]; [|discriminate].
  destruct (Z.leb month 12) eqn:H4; cbn [andb]; [|discriminate].
  destruct (Z.leb 1 day) eqn:H5; cbn [andb]; [|discriminate].
  destruct (Z.leb day (days_in_month year month)) eqn:H6; [|discriminate].
  intros _. apply Z.leb_le in H5, H6.
  destruct (Z.eqb_spec day 1) as [-> | Hne].
  - reflexivity.
  - replace (Z.leb 1 (day - 1)) with true by (symmetry; apply Z.leb_le; lia).
    replace (Z.leb (day - 1) (days_in_month year month)) with true
      by (symmetry; apply Z.leb_le; lia).
    reflexivity.
Qed.

(** ** The properties of the reader on sample files *)

Lemma load_leapseconds_reads_witness :
  load_leapseconds (nav_before ++ ("    " ++ "18" ++ String " " nav_leap_rest)%string :: [])
  = Ok (Some 18%Z).
Proof.
  apply (load_leapseconds_reads nav_before [] "    " nav_leap_rest " "
           (Decimal.D1 (Decimal.D8 Decimal.Nil))).
  - repeat constructor.
  - reflexivity.
  - discriminate.
  - unfold int_max_str_digits. simpl. lia.
  - reflexivity.
  - reflexivity.
Defined.

Lemma load_leapseconds_header_bound_witness :
  load_leapseconds
    (nav_header_no_leap ++ ["    18    18  2185     7GPS             LEAP SECONDS"%string])
  = Ok None.
Proof.
  apply load_leapseconds_header_bound.
  - repeat constructor.
  - right. apply Exists_cons_tl, Exists_cons_hd. reflexivity.
Defined.

Lemma load_leapseconds_only_value_error_witness :
  load_leapseconds ["GPS                                   LEAP SECONDS"%string]
  = Fail ValueError
  /\ ValueError = ValueError.
Proof.
  split; [reflexivity|].
  apply (load_leapseconds_only_value_error
           ["GPS                                   LEAP SECONDS"%string] ValueError).
  reflexivity.
Defined.

Lemma t_oc_time_of_week_witness :
  0 <= t_oc 604800 1356998400000000000 < 604800
  /\ exists weeks : Z,
       1 / 1000000000 * IZR 1356998400000000000
       = IZR weeks * 604800 + t_oc 604800 1356998400000000000.
Proof. apply t_oc_time_of_week. lra. Defined.

Lemma rx_bands_distinct_witness :
  NoDup ["1"; "2"; "5"]%char
  /\ forall b, In b ["1"; "2"; "5"]%char <->
               exists rx_measures single_measure,
                 In rx_measures obs_fields /\ In single_measure rx_measures
                 /\ measure_band single_measure = Ok b.
Proof. apply (rx_bands_distinct obs_fields). reflexivity. Defined.

Lemma rx_bands_short_measure_witness :
  rx_bands (obs_fields ++ [["S"%string]]) = Fail IndexError.
Proof.
  apply (rx_bands_short_measure _ ["S"%string] "S"%string).
  - apply in_or_app. right. now left.
  - now left.
  - cbn. lia.
Defined.

Lemma split_sv_ids_empty_id_witness :
  split_sv_ids documented_chars ["X01"; ""; "G0x"]%string = Fail IndexError.
Proof. apply split_sv_ids_empty_id. right. now left. Defined.

Lemma split_sv_ids_rows_witness :
  split_sv_ids documented_chars documented_ids
  = Ok (documented_ids, ["gps"; "galileo"; "glonass"]%string, [1; 11; 6]%Z).
Proof.
  apply (split_sv_ids_rows documented_chars
           [("G"%char, "gps"%string, Decimal.D0 (Decimal.D1 Decimal.Nil));
            ("E"%char, "galileo"%string, Decimal.D1 (Decimal.D1 Decimal.Nil));
            ("R"%char, "glonass"%string, Decimal.D0 (Decimal.D6 Decimal.Nil))]).
  intros c name d [[= <- <- <-] | [[= <- <- <-] | [[= <- <- <-] | []]]];
    (split; [reflexivity|]; split; [discriminate|];
     split; [unfold int_max_str_digits; simpl; lia | reflexivity]).
Defined.

Lemma get_iono_params_two_rows_witness :
  exists ion_alpha ion_beta : list string,
    [["0.1118E-07"; "0.0000E+00"; "-0.5960E-07"; "0.0000E+00"];
     ["0.9011E+05"; "0.0000E+00"; "-0.1966E+06"; "0.0000E+00"]]%string
    = [ion_alpha; ion_beta]
    /\ length ion_alpha = length ion_beta
    /\ ((exists value,
            header_get "ION ALPHA" both_records_header = Ok value
            /\ for_each (fun s => Ok s) (split (replace_D_E value)) = Ok ion_alpha)
        \/ ((forall value, ~ In ("ION ALPHA"%string, value) both_records_header)
            /\ ion_alpha = ["nan"%string]))
    /\ ((exists value,
            header_get "ION BETA" both_records_header = Ok value
            /\ for_each (fun s => Ok s) (split (replace_D_E value)) = Ok ion_beta)
        \/ ((forall value, ~ In ("ION BETA"%string, value) both_records_header)
            /\ ion_beta = ["nan"%string])).
Proof.
  apply (get_iono_params_two_rows string "nan"%string (fun s => Ok s) both_records_header).
  reflexivity.
Defined.

Lemma get_iono_params_lone_record_witness :
  get_iono_params string "nan"%string (fun s => Ok s) alpha_only_header = Fail ValueError.
Proof.
  apply (get_iono_params_lone_record string "nan"%string (fun s => Ok s) alpha_only_header
           "ION ALPHA"%string "ION BETA"%string
           "0.1118D-07 0.0000D+00 -0.5960D-07 0.0000D+00"%string
           ["0.1118E-07"; "0.0000E+00"; "-0.5960E-07"; "0.0000E+00"]%string).
  - now left.
  - reflexivity.
  - intros v [[= ?] | []].
  - reflexivity.
  - cbn. lia.
Defined.

Lemma prev_day_timestamp_first_of_month_witness :
  prev_day_timestamp (2023, 3, 1)%Z = Fail ValueError.
Proof. apply (prev_day_timestamp_first_of_month 2023 3 1). reflexivity. Defined.

End RinexText.
